(** * go-onedrive: the chunked large-file upload of [onedrive/driveitems.go]

    A shallow embedding of [UploadLargeFile] and [uploadChunk] together with
    the Go library functions they call ([strings.Split], [strconv.ParseUint],
    [fmt.Sprintf] with [%d], slice allocation), and the properties of the
    upload protocol proved about them.

    Conventions.
    - [uint64], [int64] and [int] values are [Z]; the wrap-around of unsigned
      arithmetic and the conversion [int64(offset)] are written out.
    - Go strings are [string]; a [[]byte] that is sent is a [list byte]; the
      reusable [buffer] is tracked by its [len] (its content is overwritten
      by every read, and only [len(buffer)] decides a re-allocation).
    - A Go function returning a pointer and an [error] returns an [outcome];
      a run-time panic is an outcome of its own.
    - The recursion of [uploadChunk] is driven by the server, so the
      embedding takes fuel: [None] means that the fuel ran out, never a
      result of the program. *)

From Stdlib Require Import ZArith List String Ascii Bool Lia.
From Stdlib.Strings Require Import Byte.
From Stdlib Require Import DecimalString DecimalN.
Import ListNotations.

Local Open Scope string_scope.
Local Open Scope Z_scope.

Set Implicit Arguments.

(** ** Machine integers *)

Module U64.

Definition modulus : Z := 2 ^ 64.
Definition max : Z := modulus - 1.

(** Arithmetic on [uint64] wraps around. *)
Definition wrap (z : Z) : Z := z mod modulus.

Definition add (a b : Z) : Z := wrap (a + b).
Definition sub (a b : Z) : Z := wrap (a - b).
Definition mul (a b : Z) : Z := wrap (a * b).

(** The conversion [int64(x)] of a [uint64] keeps the bit pattern. *)
Definition to_int64 (z : Z) : Z :=
  if z <? 2 ^ 63 then z else z - modulus.

Definition in_range (z : Z) : Prop := 0 <= z < modulus.

Lemma wrap_small z : in_range z -> wrap z = z.
Proof. intros H. apply Z.mod_small. exact H. Qed.

Lemma wrap_in_range z : in_range (wrap z).
Proof. apply Z.mod_pos_bound. reflexivity. Qed.

Lemma to_int64_small z : 0 <= z < 2 ^ 63 -> to_int64 z = z.
Proof.
  intros H. unfold to_int64.
  destruct (Z.ltb_spec z (2 ^ 63)); [reflexivity | lia].
Qed.

Lemma to_int64_negative z : 2 ^ 63 <= z < modulus -> to_int64 z < 0.
Proof.
  intros H. unfold to_int64.
  destruct (Z.ltb_spec z (2 ^ 63)); lia.
Qed.

End U64.

(** ** Errors and outcomes *)

(** [strconv.ErrSyntax] and [strconv.ErrRange]. *)
Inductive numErrKind : Type := ErrSyntax | ErrRange.

(** [InnerError] and [Error], the structured error of the OneDrive API
    (onedrive/errors.go). *)
Record InnerError : Type := {
  Date : string;
  RequestId : string;
  ClientRequestId : string
}.

Record Error : Type := {
  Code : string;
  Message : string;
  LocalizedMessage : string;
  InnerError_ : option InnerError
}.

(** [ErrorResponse]: the pointer field [Error *Error] is an option. *)
Record ErrorResponse : Type := {
  Error_ : option Error
}.

(** [func (e *Error) Error() string]. *)
Definition Error_Error (e : Error) : string :=
  match InnerError_ e with
  | Some inner => Code e ++ " - " ++ Message e ++ " (" ++ Date inner ++ ")"
  | None => Code e ++ " - " ++ Message e
  end.

(** The non-nil values of Go's [error] interface that this code produces or
    passes on. *)
Inductive error : Type :=
| errorString (msg : string)               (* errors.New, fmt.Errorf *)
| io_EOF                                   (* io.EOF *)
| NumError (func num : string) (kind : numErrKind)   (* strconv.NumError *)
| apiError (e : Error)                     (* onedrive.Error *)
| jsonError (msg : string)                 (* an error of json.Unmarshal *)
| foreignError (origin msg : string).      (* any error of a collaborator *)

(** Run-time panics. *)
Inductive panic : Type :=
| IndexOutOfRange (index len : Z)
| NilDereference
| MakeSliceLenOutOfRange.

(** What a call returning a pointer to [T] and an [error] does. *)
Inductive outcome (T : Type) : Type :=
| Ok (v : T)             (* return &v, nil *)
| Err (e : error)        (* return nil, e    with e non-nil *)
| NilNil                 (* return nil, nil *)
| Panic (p : panic).

Arguments Err {T} e.
Arguments NilNil {T}.
Arguments Panic {T} p.

(** [return nil, err] for an [err] that may be the nil interface. *)
Definition return_err {T : Type} (err : option error) : outcome T :=
  match err with
  | Some e => Err e
  | None => NilNil
  end.

(** ** Library functions on strings *)

Definition dash : ascii := "-"%char.

(** [strings.Split(s, sep)] for a separator of one byte: the fragments
    between the occurrences of [sep], one more than there are occurrences. *)
Fixpoint Split (s : string) (sep : ascii) : list string :=
  match s with
  | EmptyString => [EmptyString]
  | String c rest =>
      if Ascii.eqb c sep then EmptyString :: Split rest sep
      else match Split rest sep with
           | frag :: frags => String c frag :: frags
           | [] => [String c EmptyString]
           end
  end.

(** Whether the byte [c] occurs in [s]. *)
Fixpoint contains (s : string) (c : ascii) : bool :=
  match s with
  | EmptyString => false
  | String c' rest => Ascii.eqb c' c || contains rest c
  end.

Definition is_digit (c : ascii) : bool :=
  let n := Z.of_nat (nat_of_ascii c) in (48 <=? n) && (n <=? 57).

Definition digit_value (c : ascii) : Z := Z.of_nat (nat_of_ascii c) - 48.

(** The loop of [strconv.ParseUint(s, 10, 64)]: a byte that is no decimal
    digit is a syntax error; the range is checked before and after each
    digit is added, on wrapping [uint64] arithmetic. *)
Definition cutoff : Z := U64.max / 10 + 1.

Fixpoint ParseUint_loop (s : string) (n : Z) : numErrKind + Z :=
  match s with
  | EmptyString => inr n
  | String c rest =>
      if is_digit c then
        if cutoff <=? n then inl ErrRange
        else
          let n10 := U64.mul n 10 in
          let n1 := U64.add n10 (digit_value c) in
          if (n1 <? n10) || (U64.max <? n1) then inl ErrRange
          else ParseUint_loop rest n1
      else inl ErrSyntax
  end.

Definition ParseUint (s : string) : error + Z :=
  match s with
  | EmptyString => inl (NumError "ParseUint" s ErrSyntax)
  | _ =>
      match ParseUint_loop s 0 with
      | inl kind => inl (NumError "ParseUint" s kind)
      | inr n => inr n
      end
  end.

(** The verb [%d] of [fmt.Sprintf] and [strconv.Itoa], on a value that is
    not negative. *)
Definition format_d (z : Z) : string :=
  NilZero.string_of_uint (N.to_uint (Z.to_N z)).

(** ** Data model *)

Record DriveItemFile : Type := { MIMEType : string }.
Record DriveItemFolder : Type := { ChildCount : Z }.

(** [DriveItem]; the media facets ([Audio], [Video], [Image], [Photo]) play
    no part in the upload and are left out. *)
Record DriveItem : Type := {
  Name : string;
  Id : string;
  DownloadURL : string;
  Description : string;
  WebURL : string;
  File : option DriveItemFile;
  Folder : option DriveItemFolder
}.

(** [UploadSession]; the time stamp is kept as the text the server sent. *)
Record UploadSession : Type := {
  ODataContext : string;
  ExpirationDateTime : string;
  NextExpectedRanges : list string;
  UploadUrl : string
}.

(** [io.ReaderAt]. [ReadAt len off] is the call [ReadAt(p, off)] with
    [len(p) = len]: it returns the [n] bytes it stored in [p[0:n]] and the
    error. The interface documents [0 <= n <= len(p)]. *)
Record ReaderAt : Type := {
  ReadAt : Z -> Z -> list byte * option error;
  ReadAt_le : forall len off,
    Z.of_nat (List.length (fst (ReadAt len off))) <= Z.max 0 len
}.

Record LargeFile : Type := {
  LargeFile_Name : string;
  Size : Z;
  Data : option ReaderAt          (* a nil interface is [None] *)
}.

Record UploadLargeFileOpts : Type := {
  DriveID : string;
  ConflictBehavior : string;
  ChunkSize : Z
}.

(** [http.Request], as far as this code sets it. *)
Record Request : Type := {
  Method : string;
  URL : string;
  Header : list (string * string);
  Body : list byte
}.

(** [req.Header.Set(key, value)] replaces the values of [key]. *)
Definition Header_Set (key value : string) (req : Request) : Request :=
  {| Method := Method req;
     URL := URL req;
     Header := (key, value)
               :: filter (fun kv => negb (String.eqb (fst kv) key)) (Header req);
     Body := Body req |}.

Fixpoint lookup (key : string) (h : list (string * string)) : option string :=
  match h with
  | [] => None
  | (k, v) :: rest => if String.eqb k key then Some v else lookup key rest
  end.

Definition Header_Get (key : string) (req : Request) : option string :=
  lookup key (Header req).

(** [http.Response]: [ResponseBody] is what [ioutil.ReadAll(resp.Body)]
    gives. *)
Record Response : Type := {
  StatusCode : Z;
  Status : string;
  ResponseBody : error + string
}.

(** What the program does to the outside, in order. *)
Inductive event : Type :=
| ReadAtCall (len off : Z)        (* file.Data.ReadAt(p, off), len(p) = len *)
| ClientDo (req : Request)        (* s.client.Do: the session is requested *)
| HTTPDo (req : Request).         (* s.client.client.Do: a raw round trip *)

(** The functions of Go's library, and of the rest of the package, that the
    upload calls. They are parameters of the development. *)
Class Library : Type := {
  (** [url.PathEscape]. *)
  PathEscape : string -> string;
  (** The error of [http.NewRequest(method, url, body)], if any. *)
  NewRequest_err : string -> string -> option error;
  (** [json.Unmarshal(body, &item)] for [var item DriveItem]. *)
  Unmarshal_DriveItem : string -> error + DriveItem;
  (** [json.Unmarshal(body, &session)] for [var session UploadSession]. *)
  Unmarshal_UploadSession : string -> error + UploadSession;
  (** [json.Unmarshal(body, &oneDriveError)] for a pointer
      [var oneDriveError *ErrorResponse]: the JSON value [null] leaves the
      pointer nil, which is [inr None]. *)
  Unmarshal_ErrorResponse : string -> error + option ErrorResponse;
  (** [processHTTPError(ctx, err)] of the package. *)
  processHTTPError : error -> error;
  (** The largest length [make([]byte, n)] accepts on the platform. *)
  maxAlloc : Z
}.

(** The receiver [s *DriveItemsService]: its client's base URL, its [Do]
    (which sends a request and decodes the answer, here into an
    [UploadSession]) and the raw HTTP client [s.client.client]. The raw
    client answers the [k]-th round trip of an upload as [Do k]. *)
Record DriveItemsService : Type := {
  BaseURL_Parse : string -> error + string;
  client_Do : Request -> error + UploadSession;
  Do : nat -> Request -> error + Response
}.

(** ** Computations

    A computation logs events and either goes on with a value or returns
    from the enclosing function with an outcome. *)

Definition M (T A : Type) : Type := list event * (A + outcome T).

Definition pure {T A : Type} (a : A) : M T A := ([], inl a).

Definition bind {T A B : Type} (m : M T A) (k : A -> M T B) : M T B :=
  match m with
  | (tr, inl a) => let (tr', r) := k a in ((tr ++ tr')%list, r)
  | (tr, inr o) => (tr, inr o)
  end.

Definition emit {T : Type} (ev : event) : M T unit := ([ev], inl tt).

(** [return o] of the enclosing function. *)
Definition halt {T A : Type} (o : outcome T) : M T A := ([], inr o).

(** [v, err := f(); if err != nil { return nil, err }]. *)
Definition try {T A : Type} (r : error + A) : M T A :=
  match r with
  | inl e => halt (Err e)
  | inr a => pure a
  end.

(** [xs[i]]. *)
Definition at_index {T A : Type} (xs : list A) (i : nat) : M T A :=
  match nth_error xs i with
  | Some x => pure x
  | None => halt (Panic (IndexOutOfRange (Z.of_nat i) (Z.of_nat (List.length xs))))
  end.

Declare Scope go_scope.
Delimit Scope go_scope with go.
Notation "x <- m ;; k" := (bind m (fun x => k))
  (at level 61, m at next level, right associativity) : go_scope.
Notation "' pat <- m ;; k" := (bind m (fun x => match x with pat => k end))
  (at level 61, pat pattern, m at next level, right associativity) : go_scope.
Notation "m ;;; k" := (bind m (fun _ => k))
  (at level 61, right associativity) : go_scope.

(** ** The program *)

Section Upload.

Context {lib : Library}.
Variable s : DriveItemsService.

Local Open Scope go_scope.

(** [make([]byte, n)] for a [uint64] length: the length of the new slice,
    or the panic of the run time when the length is out of range. Running
    out of memory is not modelled. *)
Definition make {T : Type} (n : Z) : M T Z :=
  if (0 <=? n) && (n <=? maxAlloc) then pure n
  else halt (Panic MakeSliceLenOutOfRange).

(** [http.NewRequest] and [http.NewRequestWithContext] (the context is
    never nil here). *)
Definition NewRequest (method url : string) (body : list byte)
    : error + Request :=
  match NewRequest_err method url with
  | Some e => inl e
  | None => inr {| Method := method; URL := url; Header := []; Body := body |}
  end.

(** The value of the [Content-Range] header, lines 741-745:
    [fmt.Sprintf("bytes %d-%d/%d", offset, offset-1+uint64(n), file.Size)]. *)
Definition contentRange (offset n size : Z) : string :=
  "bytes " ++ format_d offset ++ "-"
    ++ format_d (U64.add (U64.sub offset 1) (U64.wrap n))
    ++ "/" ++ format_d size.

(** Lines 757-803, the [switch resp.StatusCode]: the outcome that is
    returned, or the arguments [(buffer, nextOffset, nextLength)] of the
    tail call of line 793. *)
Definition on_response (resp : Response) (responseBody : string)
    (buffer length : Z) : M DriveItem (Z * Z * Z) :=
  let code := StatusCode resp in
  if (code =? 200) || (code =? 201) then
    item <- try (Unmarshal_DriveItem responseBody) ;;
    halt (Ok item)
  else if code =? 202 then
    session <- try (Unmarshal_UploadSession responseBody) ;;
    if Z.of_nat (List.length (NextExpectedRanges session)) <? 1 then
      halt (Err (errorString
        "next expected ranges is empty, but we didn't receive DriveItem obejct in response"))
    else
      range0 <- at_index (NextExpectedRanges session) 0 ;;
      let sp := Split range0 dash in
      start <- at_index sp 0 ;;
      end_ <- at_index sp 1 ;;
      nextOffset <- try (ParseUint start) ;;
      nextLength <-
        (if String.eqb end_ EmptyString then pure length
         else try (ParseUint end_)) ;;
      pure (buffer, nextOffset, nextLength)
  else
    oneDriveError <- try (Unmarshal_ErrorResponse responseBody) ;;
    match oneDriveError with
    | None => halt (Panic NilDereference)
    | Some response =>
        match Error_ response with
        | None => halt (Err (errorString
                    (Status resp ++ ": " ++ responseBody)))
        | Some e => halt (Err (apiError e))
        end
    end.

(** Lines 718-803 of [uploadChunk]: one chunk, up to the tail call. *)
Definition uploadChunk_body (sent : nat) (sessURL : string)
    (buffer offset length : Z) (file : LargeFile)
    : M DriveItem (Z * Z * Z) :=
  buffer <- (if buffer <? length then make length else pure buffer) ;;
  let buffer := length in                           (* buffer[:length] *)
  data <- match Data file with
          | Some data => pure data
          | None => halt (Panic NilDereference)
          end ;;
  let off := U64.to_int64 offset in
  emit (ReadAtCall buffer off) ;;;
  let (p, err) := ReadAt data buffer off in
  let n := Z.of_nat (List.length p) in
  (if n =? 0 then
     match err with
     | Some io_EOF => halt (Err (errorString "unexpected EOF"))
     | _ => halt (return_err err)
     end
   else pure tt) ;;;
  let buffer := n in                                (* buffer[:n] *)
  uploadReq <- try (NewRequest "PUT" sessURL p) ;;
  let uploadReq := Header_Set "Content-Length" (format_d n) uploadReq in
  let uploadReq :=
    Header_Set "Content-Range" (contentRange offset n (Size file)) uploadReq in
  emit (HTTPDo uploadReq) ;;;
  resp <- match Do s sent uploadReq with
          | inl e => halt (Err (processHTTPError e))
          | inr resp => pure resp
          end ;;
  responseBody <- try (ResponseBody resp) ;;
  on_response resp responseBody buffer length.

(** [uploadChunk]. [sent] counts the round trips of the raw client made
    before this call. *)
Fixpoint uploadChunk (fuel : nat) (sent : nat) (sessURL : string)
    (buffer offset length : Z) (file : LargeFile)
    : list event * option (outcome DriveItem) :=
  match fuel with
  | O => ([], None)
  | S fuel' =>
      match uploadChunk_body sent sessURL buffer offset length file with
      | (tr, inr o) => (tr, Some o)
      | (tr, inl (buffer', nextOffset, nextLength)) =>
          let (tr', r) :=
            uploadChunk fuel' (S sent) sessURL buffer' nextOffset nextLength file
          in ((tr ++ tr')%list, r)
      end
  end.

(** The deferred function of [UploadLargeFile], lines 689-701: every path
    through it returns nothing. *)
Definition cancel (sent : nat) (session : UploadSession) : list event :=
  match NewRequest "DELETE" (UploadUrl session) [] with
  | inl _ => []
  | inr req =>
      HTTPDo req ::
      match Do s sent req with
      | inl _ => []
      | inr resp => if negb (StatusCode resp =? 204) then [] else []
      end
  end.

Definition count_HTTPDo (tr : list event) : nat :=
  List.length (filter (fun ev => match ev with HTTPDo _ => true | _ => false end) tr).

(** Lines 665-671. *)
Definition createUploadSession_path (destinationParentFolderId : string)
    (file : LargeFile) (opts : UploadLargeFileOpts) : string :=
  let apiURL :=
    "me/drive/items/" ++ PathEscape destinationParentFolderId ++ ":/"
      ++ PathEscape (LargeFile_Name file) ++ ":/createUploadSession" in
  let apiURL :=
    if negb (String.eqb (DriveID opts) EmptyString) then
      "me/drives/" ++ PathEscape (DriveID opts) ++ "/items/"
        ++ PathEscape destinationParentFolderId ++ ":/"
        ++ PathEscape (LargeFile_Name file) ++ ":/createUploadSession"
    else apiURL in
  if negb (String.eqb (ConflictBehavior opts) EmptyString) then
    apiURL ++ "?@microsoft.graph.conflictBehavior=" ++ ConflictBehavior opts
  else apiURL.

(** [UploadLargeFile]. The deferred [cancel] runs when the function
    returns or panics after line 689. *)
Definition UploadLargeFile (fuel : nat) (destinationParentFolderId : string)
    (file : LargeFile) (opts : UploadLargeFileOpts)
    : list event * option (outcome DriveItem) :=
  if String.eqb destinationParentFolderId EmptyString then
    ([], Some (Err (errorString
      "Please provide the destination, i.e. the ID of the parent folder for this new item.")))
  else if String.eqb (LargeFile_Name file) EmptyString then
    ([], Some (Err (errorString "Please provide the file name.")))
  else if Size file =? 0 then
    ([], Some (Err (errorString "Please provide the file size.")))
  else
    match Data file with
    | None => ([], Some (Err (errorString "Please provide the file reader.")))
    | Some _ =>
      let apiURL := createUploadSession_path destinationParentFolderId file opts in
      match BaseURL_Parse s apiURL with
      | inl e => ([], Some (Err e))
      | inr apiUrl =>
        match NewRequest "POST" apiUrl [] with
        | inl e => ([], Some (Err e))
        | inr req =>
          let req := Header_Set "Content-Type" "application/json" req in
          match client_Do s req with
          | inl e => ([ClientDo req], Some (Err e))
          | inr session =>
            let chunkSize := 4 * 1024 * 1024 in
            let chunkSize :=
              if negb (ChunkSize opts =? 0) then ChunkSize opts else chunkSize in
            match make (T := DriveItem) chunkSize with
            | (_, inr o) =>
                ((ClientDo req :: cancel 0 session)%list, Some o)
            | (_, inl buffer) =>
                let (tr, r) :=
                  uploadChunk fuel 0 (UploadUrl session) buffer 0 chunkSize file in
                match r with
                | None => ((ClientDo req :: tr)%list, None)
                | Some o =>
                    ((ClientDo req :: tr ++ cancel (count_HTTPDo tr) session)%list,
                     Some o)
                end
            end
          end
        end
      end
    end.

End Upload.

(** ** A reader over bytes held in memory

    [bytes.Reader], the customary [io.ReaderAt]: [n = copy(p, data[off:])],
    with [io.EOF] when fewer than [len(p)] bytes were copied. *)

Definition bytesReader_ReadAt (data : list byte) (len off : Z)
    : list byte * option error :=
  if off <? 0 then
    ([], Some (foreignError "bytes" "bytes.Reader.ReadAt: negative offset"))
  else if Z.of_nat (List.length data) <=? off then ([], Some io_EOF)
  else
    let p := firstn (Z.to_nat len) (skipn (Z.to_nat off) data) in
    (p, if Z.of_nat (List.length p) <? len then Some io_EOF else None).

Lemma bytesReader_ReadAt_le (data : list byte) (len off : Z) :
  Z.of_nat (List.length (fst (bytesReader_ReadAt data len off))) <= Z.max 0 len.
Proof.
  unfold bytesReader_ReadAt.
  destruct (off <? 0); [simpl; lia |].
  destruct (Z.of_nat (List.length data) <=? off); [simpl; lia |].
  simpl.
  pose proof (firstn_le_length (Z.to_nat len) (skipn (Z.to_nat off) data)).
  lia.
Qed.

Definition bytesReader (data : list byte) : ReaderAt :=
  {| ReadAt := bytesReader_ReadAt data;
     ReadAt_le := bytesReader_ReadAt_le data |}.

(** ** Sample collaborators

    A library and servers to run the program on. The sample decoders know
    the JSON texts listed in their tables, with the values [json.Unmarshal]
    gives for them, and report any other text as a syntax error. *)

Module Sample.

Definition quote (text : string) : string :=
  let dq := String (ascii_of_nat 34) EmptyString in dq ++ text ++ dq.

Fixpoint join (sep : string) (parts : list string) : string :=
  match parts with
  | [] => EmptyString
  | [part] => part
  | part :: rest => part ++ sep ++ join sep rest
  end.

Definition decode {A : Type} (table : list (string * A)) (body : string)
    : error + A :=
  match find (fun row => String.eqb (fst row) body) table with
  | Some row => inr (snd row)
  | None => inl (jsonError "invalid character looking for beginning of value")
  end.

Definition uploadUrl : string := "https://upload.example/session/1".

(** The JSON text of a session with the given next expected ranges. *)
Definition session_json (ranges : list string) : string :=
  "{" ++ quote "nextExpectedRanges" ++ ":[" ++ join "," (map quote ranges)
    ++ "]}".

Definition session (ranges : list string) : UploadSession :=
  {| ODataContext := EmptyString;
     ExpirationDateTime := EmptyString;
     NextExpectedRanges := ranges;
     UploadUrl := EmptyString |}.

Definition known_ranges : list (list string) :=
  [ []; ["0-"]; ["4-"]; ["8-"]; ["10-19"]; ["100-200"]; ["5"];
    ["1048576-"]; ["1048576-2097151"] ].

Definition item_json : string :=
  "{" ++ quote "id" ++ ":" ++ quote "01ITEM" ++ ","
    ++ quote "name" ++ ":" ++ quote "report.bin" ++ "}".

Definition item : DriveItem :=
  {| Name := "report.bin"; Id := "01ITEM"; DownloadURL := EmptyString;
     Description := EmptyString; WebURL := EmptyString;
     File := None; Folder := None |}.

Definition error_json : string :=
  "{" ++ quote "error" ++ ":{" ++ quote "code" ++ ":" ++ quote "invalidRequest"
    ++ "," ++ quote "message" ++ ":" ++ quote "Bad range" ++ "}}".

Definition api_error : Error :=
  {| Code := "invalidRequest"; Message := "Bad range";
     LocalizedMessage := EmptyString; InnerError_ := None |}.

(** A text that is no JSON: the page of a gateway. *)
Definition html : string := "<html>Bad Gateway</html>".

(** Whether a byte is an ASCII control character, which [url.Parse]
    refuses. *)
Definition control (c : ascii) : bool :=
  let n := nat_of_ascii c in (Nat.ltb n 32) || (Nat.eqb n 127).

Fixpoint has_control (url : string) : bool :=
  match url with
  | EmptyString => false
  | String c rest => control c || has_control rest
  end.

#[local] Instance library : Library :=
  {| PathEscape := fun text => text;
     NewRequest_err := fun _ url =>
       if has_control url
       then Some (foreignError "net/url" "invalid control character in URL")
       else None;
     Unmarshal_DriveItem := decode [(item_json, item)];
     Unmarshal_UploadSession :=
       decode (map (fun ranges => (session_json ranges, session ranges))
                   known_ranges);
     Unmarshal_ErrorResponse :=
       decode [ ("null", None);
                ("{}", Some {| Error_ := None |});
                (error_json, Some {| Error_ := Some api_error |}) ];
     processHTTPError := fun e => e;
     maxAlloc := 2 ^ 48 |}.

Definition response (code : Z) (status body : string) : Response :=
  {| StatusCode := code; Status := status; ResponseBody := inr body |}.

Definition accepted (ranges : list string) : error + Response :=
  inr (response 202 "202 Accepted" (session_json ranges)).

Definition created : error + Response :=
  inr (response 201 "201 Created" item_json).

Definition no_content : error + Response :=
  inr (response 204 "204 No Content" EmptyString).

(** A service whose session request gives the session at [uploadUrl] and
    whose raw client answers the [k]-th round trip with [answers k]. *)
Definition service (answers : nat -> error + Response) : DriveItemsService :=
  {| BaseURL_Parse := fun path => inr ("https://graph.example/v1.0/" ++ path);
     client_Do := fun _ =>
       inr {| ODataContext := EmptyString;
              ExpirationDateTime := EmptyString;
              NextExpectedRanges := [];
              UploadUrl := uploadUrl |};
     Do := fun k _ => answers k |}.

(** The answers of a list, then [204 No Content]. *)
Definition script (answers : list (error + Response)) (k : nat)
    : error + Response :=
  nth k answers no_content.

(** A file of [size] zero bytes. *)
Definition zeros (size : Z) : list byte := repeat x00 (Z.to_nat size).

Definition file (size : Z) : LargeFile :=
  {| LargeFile_Name := "report.bin";
     Size := size;
     Data := Some (bytesReader (zeros size)) |}.

Definition opts (chunkSize : Z) : UploadLargeFileOpts :=
  {| DriveID := EmptyString; ConflictBehavior := EmptyString;
     ChunkSize := chunkSize |}.

(** The events of a run without the bodies of the requests. *)
Inductive summary : Type :=
| Read (len off : Z)
| Sent (method : string) (contentRange : option string).

Definition summarize (ev : event) : summary :=
  match ev with
  | ReadAtCall len off => Read len off
  | ClientDo req => Sent (Method req) None
  | HTTPDo req => Sent (Method req) (Header_Get "Content-Range" req)
  end.

End Sample.

(** ** Chunk attempts

    The conditions under which one call of [uploadChunk] reads, sends and
    receives; the claims about "every chunk" are stated from them. *)

Section Attempts.

Context {lib : Library}.
Variable s : DriveItemsService.

(** The slice [buffer[:length]] exists: the buffer is long enough, or a
    new one of [length] bytes can be made. *)
Definition alloc_ok (buffer length : Z) : Prop :=
  length <= buffer \/ 0 <= length <= maxAlloc.

(** The call reads at [offset] and the reader stores [p], with [err]. *)
Record Reads (buffer offset length : Z) (file : LargeFile)
    (p : list byte) (err : option error) : Prop := {
  reads_alloc : alloc_ok buffer length;
  reads_data : exists data,
    Data file = Some data /\
    ReadAt data length (U64.to_int64 offset) = (p, err)
}.

(** The request of lines 735-746 for the bytes [p] read at [offset]. *)
Definition put_request (sessURL : string) (p : list byte)
    (offset size : Z) : Request :=
  let n := Z.of_nat (List.length p) in
  Header_Set "Content-Range" (contentRange offset n size)
    (Header_Set "Content-Length" (format_d n)
       {| Method := "PUT"; URL := sessURL; Header := []; Body := p |}).

(** The call reads at least one byte and its request can be built. *)
Record Sends (sessURL : string) (buffer offset length : Z)
    (file : LargeFile) (p : list byte) : Prop := {
  sends_reads : exists err, Reads buffer offset length file p err;
  sends_bytes : p <> [];
  sends_request : NewRequest_err "PUT" sessURL = None
}.

(** The call sends its request as round trip [sent] and receives [resp],
    whose body reads as [body]. *)
Record Receives (sent : nat) (sessURL : string) (buffer offset length : Z)
    (file : LargeFile) (p : list byte) (resp : Response) (body : string)
    : Prop := {
  receives_sends : Sends sessURL buffer offset length file p;
  receives_resp :
    Do s sent (put_request sessURL p offset (Size file)) = inr resp;
  receives_body : ResponseBody resp = inr body
}.

(** The events of a call that sends. *)
Definition sent_events (sessURL : string) (offset length : Z)
    (file : LargeFile) (p : list byte) : list event :=
  [ ReadAtCall length (U64.to_int64 offset);
    HTTPDo (put_request sessURL p offset (Size file)) ].

Lemma resize_ok (buffer length : Z) :
  alloc_ok buffer length ->
  exists b, (if buffer <? length then make (T := DriveItem) length
             else pure buffer) = pure b.
Proof.
  intros Halloc.
  destruct (Z.ltb_spec buffer length) as [Hlt | Hge].
  - destruct Halloc as [Hle | [H0 Hmax]]; [lia |].
    exists length. unfold make.
    apply Z.leb_le in H0. apply Z.leb_le in Hmax.
    rewrite H0, Hmax. reflexivity.
  - exists buffer. reflexivity.
Qed.

Lemma length_zero_iff (p : list byte) :
  (Z.of_nat (List.length p) =? 0) = true <-> p = [].
Proof.
  destruct p; simpl; split; intros H; try reflexivity; discriminate.
Qed.

Lemma length_nonzero (p : list byte) :
  p <> [] -> (Z.of_nat (List.length p) =? 0) = false.
Proof.
  intros Hp. destruct (Z.of_nat (List.length p) =? 0) eqn:E; [| reflexivity].
  apply length_zero_iff in E. contradiction.
Qed.

(** [on_response] logs nothing. *)
Lemma on_response_silent resp body buffer length :
  fst (on_response resp body buffer length) = [].
Proof.
  unfold on_response.
  destruct ((StatusCode resp =? 200) || (StatusCode resp =? 201)).
  - destruct (Unmarshal_DriveItem body); reflexivity.
  - destruct (StatusCode resp =? 202).
    + destruct (Unmarshal_UploadSession body) as [e | session]; [reflexivity |].
      simpl.
      destruct (Z.of_nat (List.length (NextExpectedRanges session)) <? 1);
        [reflexivity |].
      destruct (NextExpectedRanges session) as [| range0 ranges];
        [reflexivity |].
      simpl.
      destruct (Split range0 dash) as [| start [| end_ frags]];
        try reflexivity.
      simpl.
      destruct (ParseUint start); [reflexivity |]. simpl.
      destruct (String.eqb end_ EmptyString); [reflexivity |].
      destruct (ParseUint end_); reflexivity.
    + destruct (Unmarshal_ErrorResponse body) as [e | [response |]];
        try reflexivity.
      simpl. destruct (Error_ response); reflexivity.
Qed.

(** A call that reads nothing ends there. *)
Lemma body_reads_nothing sent sessURL buffer offset length file err :
  Reads buffer offset length file [] err ->
  uploadChunk_body s sent sessURL buffer offset length file =
    ([ReadAtCall length (U64.to_int64 offset)],
     inr match err with
         | Some io_EOF => Err (errorString "unexpected EOF")
         | _ => return_err err
         end).
Proof.
  intros [Halloc (data & Hdata & Hread)].
  unfold uploadChunk_body.
  destruct (resize_ok Halloc) as [b ->].
  rewrite Hdata. simpl. rewrite Hread. simpl.
  destruct err as [[ | | | | | ] |]; reflexivity.
Qed.

(** A call that receives a response goes by [on_response]. *)
Lemma body_receives sent sessURL buffer offset length file p resp body :
  Receives sent sessURL buffer offset length file p resp body ->
  uploadChunk_body s sent sessURL buffer offset length file =
    (sent_events sessURL offset length file p,
     snd (on_response resp body (Z.of_nat (List.length p)) length)).
Proof.
  intros [[(err & Halloc & data & Hdata & Hread) Hp Hreq] Hresp Hbody].
  unfold uploadChunk_body.
  destruct (resize_ok Halloc) as [b ->].
  rewrite Hdata. simpl. rewrite Hread. simpl.
  rewrite (length_nonzero Hp). simpl.
  unfold NewRequest. rewrite Hreq. simpl.
  unfold put_request in Hresp. rewrite Hresp. simpl.
  rewrite Hbody. simpl.
  pose proof (on_response_silent resp body (Z.of_nat (List.length p)) length)
    as Hsilent.
  destruct (on_response resp body (Z.of_nat (List.length p)) length)
    as [tr r].
  simpl in Hsilent. subst tr. reflexivity.
Qed.

End Attempts.

(** ** Facts about the library functions *)

Lemma Split_not_nil (text : string) (sep : ascii) : Split text sep <> [].
Proof.
  destruct text as [| c rest]; simpl; [discriminate |].
  destruct (Ascii.eqb c sep); [discriminate |].
  destruct (Split rest sep); discriminate.
Qed.

Lemma Split_without_sep (text : string) (sep : ascii) :
  contains text sep = false -> Split text sep = [text].
Proof.
  induction text as [| c rest IH]; simpl; intros H; [reflexivity |].
  apply orb_false_iff in H. destruct H as [Hc Hrest].
  rewrite Hc, (IH Hrest). reflexivity.
Qed.

Lemma Split_with_sep (text : string) (sep : ascii) :
  contains text sep = true ->
  exists first second frags, Split text sep = first :: second :: frags.
Proof.
  induction text as [| c rest IH]; simpl; intros H; [discriminate |].
  destruct (Ascii.eqb c sep) eqn:Hc.
  - destruct (Split rest sep) as [| frag frags] eqn:Hsplit.
    + exfalso. exact (Split_not_nil rest sep Hsplit).
    + exists EmptyString, frag, frags. reflexivity.
  - simpl in H. destruct (IH H) as (first & second & frags & ->).
    exists (String c first), second, frags. reflexivity.
Qed.

Lemma ParseUint_loop_in_range (text : string) :
  forall acc n,
    U64.in_range acc -> ParseUint_loop text acc = inr n -> U64.in_range n.
Proof.
  induction text as [| c rest IH]; simpl; intros acc n Hacc H.
  - injection H as <-. exact Hacc.
  - destruct (is_digit c); [| discriminate].
    destruct (cutoff <=? acc); [discriminate |].
    destruct ((U64.add (U64.mul acc 10) (digit_value c) <? U64.mul acc 10)
              || (U64.max <? U64.add (U64.mul acc 10) (digit_value c)));
      [discriminate |].
    apply (IH _ _ (U64.wrap_in_range _) H).
Qed.

(** A number that [ParseUint] returns is a [uint64]. *)
Lemma ParseUint_in_range (text : string) (n : Z) :
  ParseUint text = inr n -> U64.in_range n.
Proof.
  unfold ParseUint. destruct text as [| c rest]; [discriminate |].
  destruct (ParseUint_loop (String c rest) 0) as [kind | m] eqn:Hloop;
    [discriminate |].
  intros H. injection H as <-.
  apply (ParseUint_loop_in_range (String c rest) (acc := 0)); [| exact Hloop].
  unfold U64.in_range, U64.modulus. lia.
Qed.

Lemma lookup_Header_Set (key value : string) (req : Request) :
  Header_Get key (Header_Set key value req) = Some value.
Proof.
  unfold Header_Get, Header_Set. simpl. rewrite String.eqb_refl. reflexivity.
Qed.

(** ** The response to a chunk *)

Section Responses.

Context {lib : Library}.
Variable s : DriveItemsService.

Definition empty_ranges_error : error :=
  errorString
    "next expected ranges is empty, but we didn't receive DriveItem obejct in response".

Lemma on_response_accepted resp body buffer length session :
  StatusCode resp = 202 ->
  Unmarshal_UploadSession body = inr session ->
  on_response resp body buffer length =
    match NextExpectedRanges session with
    | [] => halt (Err empty_ranges_error)
    | range0 :: _ =>
        match Split range0 dash with
        | start :: end_ :: _ =>
            match ParseUint start with
            | inl e => halt (Err e)
            | inr nextOffset =>
                if String.eqb end_ EmptyString
                then pure (buffer, nextOffset, length)
                else match ParseUint end_ with
                     | inl e => halt (Err e)
                     | inr nextLength => pure (buffer, nextOffset, nextLength)
                     end
            end
        | _ => halt (Panic (IndexOutOfRange 1 1))
        end
    end.
Proof.
  intros Hcode Hsession. unfold on_response.
  rewrite Hcode, Hsession. simpl.
  destruct (NextExpectedRanges session) as [| range0 ranges]; [reflexivity |].
  replace (Z.of_nat (List.length (range0 :: ranges)) <? 1) with false
    by (symmetry; apply Z.ltb_ge; simpl List.length; lia).
  simpl.
  destruct (Split range0 dash) as [| start [| end_ frags]] eqn:Hsplit.
  - exfalso. exact (Split_not_nil _ _ Hsplit).
  - reflexivity.
  - simpl. destruct (ParseUint start); [reflexivity |]. simpl.
    destruct (String.eqb end_ EmptyString); [reflexivity |].
    destruct (ParseUint end_); reflexivity.
Qed.

Lemma on_response_other resp body buffer length :
  StatusCode resp <> 200 -> StatusCode resp <> 201 -> StatusCode resp <> 202 ->
  on_response resp body buffer length =
    match Unmarshal_ErrorResponse body with
    | inl e => halt (Err e)
    | inr None => halt (Panic NilDereference)
    | inr (Some response) =>
        match Error_ response with
        | None => halt (Err (errorString (Status resp ++ ": " ++ body)))
        | Some e => halt (Err (apiError e))
        end
    end.
Proof.
  intros H200 H201 H202. unfold on_response.
  apply Z.eqb_neq in H200, H201, H202.
  rewrite H200, H201, H202. simpl.
  destruct (Unmarshal_ErrorResponse body) as [e | [response |]];
    try reflexivity.
  simpl. destruct (Error_ response); reflexivity.
Qed.

(** A call whose body returns, returns; one whose body reaches the tail
    call goes on with one unit of fuel less. *)
Lemma uploadChunk_returns fuel sent sessURL buffer offset length file tr o :
  uploadChunk_body s sent sessURL buffer offset length file = (tr, inr o) ->
  uploadChunk s (S fuel) sent sessURL buffer offset length file = (tr, Some o).
Proof. intros H. simpl. rewrite H. reflexivity. Qed.

Lemma uploadChunk_recurses fuel sent sessURL buffer offset length file tr
    buffer' nextOffset nextLength :
  uploadChunk_body s sent sessURL buffer offset length file =
    (tr, inl (buffer', nextOffset, nextLength)) ->
  uploadChunk s (S fuel) sent sessURL buffer offset length file =
    ((tr ++ fst (uploadChunk s fuel (S sent) sessURL buffer' nextOffset
                   nextLength file))%list,
     snd (uploadChunk s fuel (S sent) sessURL buffer' nextOffset nextLength file)).
Proof.
  intros H. simpl. rewrite H.
  destruct (uploadChunk s fuel (S sent) sessURL buffer' nextOffset nextLength file).
  reflexivity.
Qed.

End Responses.

(** ** One chunk: what is read, sent and answered *)

Section Chunk.

Context {lib : Library}.
Variable s : DriveItemsService.

(** A call that sends logs its read and its request, whatever follows. *)
Lemma body_sends sent sessURL buffer offset length file p :
  Sends sessURL buffer offset length file p ->
  fst (uploadChunk_body s sent sessURL buffer offset length file) =
    sent_events sessURL offset length file p.
Proof.
  intros [(err & Halloc & data & Hdata & Hread) Hp Hreq].
  unfold uploadChunk_body.
  destruct (resize_ok Halloc) as [b ->].
  rewrite Hdata. simpl. rewrite Hread. simpl.
  rewrite (length_nonzero Hp). simpl.
  unfold NewRequest. rewrite Hreq. simpl.
  fold (put_request sessURL p offset (Size file)).
  destruct (Do s sent (put_request sessURL p offset (Size file)))
    as [e | resp]; [reflexivity |].
  simpl. destruct (ResponseBody resp) as [e | body]; [reflexivity |].
  simpl.
  pose proof (on_response_silent resp body (Z.of_nat (List.length p)) length)
    as Hsilent.
  destruct (on_response resp body (Z.of_nat (List.length p)) length) as [tr r].
  simpl in Hsilent. subst tr. reflexivity.
Qed.

Lemma uploadChunk_sends fuel sent sessURL buffer offset length file p :
  Sends sessURL buffer offset length file p ->
  exists rest,
    fst (uploadChunk s (S fuel) sent sessURL buffer offset length file) =
      (sent_events sessURL offset length file p ++ rest)%list.
Proof.
  intros Hsends. pose proof (body_sends sent Hsends) as Hbody.
  simpl.
  destruct (uploadChunk_body s sent sessURL buffer offset length file)
    as [tr [[[buffer' nextOffset] nextLength] | o]].
  - simpl in Hbody. subst tr.
    destruct (uploadChunk s fuel (S sent) sessURL buffer' nextOffset
                nextLength file) as [tr' r].
    exists tr'. reflexivity.
  - simpl in Hbody. subst tr. exists []. reflexivity.
Qed.

(** A call whose response makes [on_response] return. *)
Lemma uploadChunk_answered fuel sent sessURL buffer offset length file p
    resp body o :
  Receives s sent sessURL buffer offset length file p resp body ->
  on_response resp body (Z.of_nat (List.length p)) length = halt o ->
  uploadChunk s (S fuel) sent sessURL buffer offset length file =
    (sent_events sessURL offset length file p, Some o).
Proof.
  intros Hrecv Hresp. apply uploadChunk_returns.
  rewrite (body_receives Hrecv), Hresp. reflexivity.
Qed.

(** A call whose response makes [on_response] reach the tail call. *)
Lemma uploadChunk_continued fuel sent sessURL buffer offset length file p
    resp body nextOffset nextLength :
  Receives s sent sessURL buffer offset length file p resp body ->
  on_response resp body (Z.of_nat (List.length p)) length =
    pure (Z.of_nat (List.length p), nextOffset, nextLength) ->
  uploadChunk s (S fuel) sent sessURL buffer offset length file =
    let next := uploadChunk s fuel (S sent) sessURL (Z.of_nat (List.length p))
                  nextOffset nextLength file in
    ((sent_events sessURL offset length file p ++ fst next)%list, snd next).
Proof.
  intros Hrecv Hresp. apply uploadChunk_recurses.
  rewrite (body_receives Hrecv), Hresp. reflexivity.
Qed.

(** The range end of the [Content-Range] header without wrap-around. *)
Lemma range_end_exact (offset n : Z) :
  U64.in_range offset -> 1 <= n -> offset + n <= U64.modulus ->
  U64.add (U64.sub offset 1) (U64.wrap n) = offset + n - 1.
Proof.
  unfold U64.in_range, U64.add, U64.sub, U64.wrap. intros Hoff Hn Hsum.
  rewrite <- Z.add_mod by (unfold U64.modulus; lia).
  replace (offset - 1 + n) with (offset + n - 1) by lia.
  apply Z.mod_small. lia.
Qed.

End Chunk.

(** ** Properties of one chunk *)

Section ChunkProperties.

Context {lib : Library}.
Variable s : DriveItemsService.

(** The four errors with which [UploadLargeFile] refuses its arguments. *)
Definition validation_errors : list error :=
  [ errorString
      "Please provide the destination, i.e. the ID of the parent folder for this new item.";
    errorString "Please provide the file name.";
    errorString "Please provide the file size.";
    errorString "Please provide the file reader." ].

(** Claim C8. A call of [UploadLargeFile] with an empty destination folder
    id, an empty file name, a file size of zero or no data source returns
    one of the validation errors, and nothing has been requested or read:
    the log of events is empty. *)
Theorem validation_precedes_requests fuel destinationParentFolderId file opts :
  destinationParentFolderId = EmptyString \/
  LargeFile_Name file = EmptyString \/
  Size file = 0 \/
  Data file = None ->
  exists e,
    In e validation_errors /\
    UploadLargeFile s fuel destinationParentFolderId file opts = ([], Some (Err e)).
Proof.
  intros H. unfold UploadLargeFile, validation_errors.
  destruct (String.eqb_spec destinationParentFolderId EmptyString) as [_ | Hid].
  { eexists. split; [| reflexivity]. simpl. auto. }
  destruct (String.eqb_spec (LargeFile_Name file) EmptyString) as [_ | Hname].
  { eexists. split; [| reflexivity]. simpl. auto. }
  destruct (Z.eqb_spec (Size file) 0) as [_ | Hsize].
  { eexists. split; [| reflexivity]. simpl. auto. }
  destruct (Data file) as [data |] eqn:Hdata.
  { exfalso. destruct H as [H | [H | [H | H]]];
      [exact (Hid H) | exact (Hname H) | exact (Hsize H) | discriminate H]. }
  eexists. split; [| reflexivity]. simpl. auto.
Qed.

(** Claim C5. When the response to a chunk has status 202 and its session
    decodes with an empty list of next expected ranges, [uploadChunk]
    returns the error that the ranges are empty, and the log ends with the
    request of this chunk: no further chunk is read or sent. *)
Theorem empty_next_ranges_fail fuel sent sessURL buffer offset length file p
    resp body session :
  Receives s sent sessURL buffer offset length file p resp body ->
  StatusCode resp = 202 ->
  Unmarshal_UploadSession body = inr session ->
  NextExpectedRanges session = [] ->
  uploadChunk s (S fuel) sent sessURL buffer offset length file =
    (sent_events sessURL offset length file p, Some (Err empty_ranges_error)).
Proof.
  intros Hrecv Hcode Hsession Hranges.
  apply (uploadChunk_answered fuel Hrecv).
  rewrite (on_response_accepted resp body _ _ Hcode Hsession), Hranges.
  reflexivity.
Qed.

(** Claim C3, as the code has it. For a response to a chunk with a status
    other than 200, 201 and 202: when the body is no JSON text for an
    [ErrorResponse], [uploadChunk] returns the error of the decoder; when
    the body decodes to a response without an [error] member, it returns
    an error whose text is the status line, a colon and the raw body; when
    the body decodes to a response with an [error] member, it returns
    that error. *)
Theorem other_status_fails fuel sent sessURL buffer offset length file p
    resp body :
  Receives s sent sessURL buffer offset length file p resp body ->
  StatusCode resp <> 200 -> StatusCode resp <> 201 -> StatusCode resp <> 202 ->
  (forall e,
     Unmarshal_ErrorResponse body = inl e ->
     uploadChunk s (S fuel) sent sessURL buffer offset length file =
       (sent_events sessURL offset length file p, Some (Err e))) /\
  (forall response,
     Unmarshal_ErrorResponse body = inr (Some response) ->
     Error_ response = None ->
     uploadChunk s (S fuel) sent sessURL buffer offset length file =
       (sent_events sessURL offset length file p,
        Some (Err (errorString (Status resp ++ ": " ++ body))))) /\
  (forall response e,
     Unmarshal_ErrorResponse body = inr (Some response) ->
     Error_ response = Some e ->
     uploadChunk s (S fuel) sent sessURL buffer offset length file =
       (sent_events sessURL offset length file p, Some (Err (apiError e)))).
Proof.
  intros Hrecv H200 H201 H202.
  pose proof (on_response_other resp body (Z.of_nat (List.length p)) length
                H200 H201 H202) as Hresp.
  repeat split.
  - intros e He. rewrite He in Hresp.
    apply (uploadChunk_answered fuel Hrecv Hresp).
  - intros response Hdec Herr. rewrite Hdec, Herr in Hresp.
    apply (uploadChunk_answered fuel Hrecv Hresp).
  - intros response e Hdec Herr. rewrite Hdec, Herr in Hresp.
    apply (uploadChunk_answered fuel Hrecv Hresp).
Qed.

(** The JSON value [null] as the body of such a response leaves the pointer
    [oneDriveError] nil, and reading its field panics. *)
Lemma null_error_body_panics fuel sent sessURL buffer offset length file p
    resp body :
  Receives s sent sessURL buffer offset length file p resp body ->
  StatusCode resp <> 200 -> StatusCode resp <> 201 -> StatusCode resp <> 202 ->
  Unmarshal_ErrorResponse body = inr None ->
  uploadChunk s (S fuel) sent sessURL buffer offset length file =
    (sent_events sessURL offset length file p, Some (Panic NilDereference)).
Proof.
  intros Hrecv H200 H201 H202 Hnull.
  pose proof (on_response_other resp body (Z.of_nat (List.length p)) length
                H200 H201 H202) as Hresp.
  rewrite Hnull in Hresp.
  apply (uploadChunk_answered fuel Hrecv Hresp).
Qed.

End ChunkProperties.

(** ** The next range, the read and the header *)

Section RangeProperties.

Context {lib : Library}.
Variable s : DriveItemsService.

(** Lines 778-790 on the entry [entry] after a chunk of [length] bytes was
    asked for: the tail call is made with [nextOffset] and [nextLength]. *)
Definition range_resolves (entry : string) (length nextOffset nextLength : Z)
    : Prop :=
  exists start end_ frags,
    Split entry dash = start :: end_ :: frags /\
    ParseUint start = inr nextOffset /\
    if String.eqb end_ EmptyString then nextLength = length
    else ParseUint end_ = inr nextLength.

Lemma uploadChunk_accepted fuel sent sessURL buffer offset length file p
    resp body session entry ranges nextOffset nextLength :
  Receives s sent sessURL buffer offset length file p resp body ->
  StatusCode resp = 202 ->
  Unmarshal_UploadSession body = inr session ->
  NextExpectedRanges session = entry :: ranges ->
  range_resolves entry length nextOffset nextLength ->
  uploadChunk s (S fuel) sent sessURL buffer offset length file =
    let next := uploadChunk s fuel (S sent) sessURL (Z.of_nat (List.length p))
                  nextOffset nextLength file in
    ((sent_events sessURL offset length file p ++ fst next)%list, snd next).
Proof.
  intros Hrecv Hcode Hsession Hranges (start & end_ & frags & Hsplit & Hstart & Hend).
  apply (uploadChunk_continued fuel Hrecv).
  rewrite (on_response_accepted resp body _ _ Hcode Hsession), Hranges, Hsplit,
    Hstart.
  destruct (String.eqb end_ EmptyString).
  - rewrite Hend. reflexivity.
  - rewrite Hend. reflexivity.
Qed.

Lemma Split_open_range (start : string) :
  contains start dash = false ->
  Split (start ++ "-") dash = [start; EmptyString].
Proof.
  induction start as [| c rest IH]; intros Hdash; [reflexivity |].
  simpl in Hdash. apply orb_false_iff in Hdash. destruct Hdash as [Hc Hrest].
  simpl. rewrite Hc, (IH Hrest). reflexivity.
Qed.

(** An entry [start-]: the next chunk is asked for with the length of this
    one. *)
Lemma open_range_reuses_length (start : string) (length nextOffset : Z) :
  contains start dash = false ->
  ParseUint start = inr nextOffset ->
  range_resolves (start ++ "-") length nextOffset length.
Proof.
  intros Hdash Hstart.
  exists start, EmptyString, [].
  split; [exact (Split_open_range start Hdash) |].
  split; [exact Hstart | reflexivity].
Qed.

(** Claim C10. The second fragment [sp[1]] of the split entry exists for
    every entry with a ['-'] and for no entry without one; and a 202
    response whose first entry has no ['-'] is handled by a call that
    panics on this access, with index 1 out of range for length 1. *)
Theorem second_fragment_access :
  (forall entry, contains entry dash = true ->
     exists end_, nth_error (Split entry dash) 1 = Some end_) /\
  (forall entry, contains entry dash = false ->
     nth_error (Split entry dash) 1 = None) /\
  (forall fuel sent sessURL buffer offset length file p resp body session
          entry ranges,
     Receives s sent sessURL buffer offset length file p resp body ->
     StatusCode resp = 202 ->
     Unmarshal_UploadSession body = inr session ->
     NextExpectedRanges session = entry :: ranges ->
     contains entry dash = false ->
     uploadChunk s (S fuel) sent sessURL buffer offset length file =
       (sent_events sessURL offset length file p,
        Some (Panic (IndexOutOfRange 1 1)))).
Proof.
  repeat split.
  - intros entry Hdash.
    destruct (Split_with_sep entry dash Hdash) as (first & second & frags & ->).
    exists second. reflexivity.
  - intros entry Hdash. rewrite (Split_without_sep entry dash Hdash).
    reflexivity.
  - intros fuel sent sessURL buffer offset length file p resp body session
      entry ranges Hrecv Hcode Hsession Hranges Hdash.
    apply (uploadChunk_answered fuel Hrecv).
    rewrite (on_response_accepted resp body _ _ Hcode Hsession), Hranges,
      (Split_without_sep entry dash Hdash).
    reflexivity.
Qed.

(** Claim C7. For a chunk asked for with a length above zero: when the read
    stores no byte and reports [io.EOF], [uploadChunk] returns the error
    "unexpected EOF" and the log holds the read alone, no request; when the
    read stores fewer bytes than asked for, but at least one, the request
    that is sent has exactly the stored bytes as its body and their count
    as its [Content-Length]. *)
Theorem short_read_handling fuel sent sessURL buffer offset length file :
  0 < length ->
  (Reads buffer offset length file [] (Some io_EOF) ->
   uploadChunk s (S fuel) sent sessURL buffer offset length file =
     ([ReadAtCall length (U64.to_int64 offset)],
      Some (Err (errorString "unexpected EOF")))) /\
  (forall p,
     Sends sessURL buffer offset length file p ->
     Z.of_nat (List.length p) < length ->
     exists req rest,
       fst (uploadChunk s (S fuel) sent sessURL buffer offset length file) =
         (ReadAtCall length (U64.to_int64 offset) :: HTTPDo req :: rest)%list /\
       Body req = p /\
       Header_Get "Content-Length" req =
         Some (format_d (Z.of_nat (List.length p)))).
Proof.
  intros Hlength. split.
  - intros Hreads. apply uploadChunk_returns.
    apply (body_reads_nothing s sent sessURL Hreads).
  - intros p Hsends Hshort.
    destruct (uploadChunk_sends s fuel sent Hsends) as [rest Hrest].
    exists (put_request sessURL p offset (Size file)), rest.
    repeat split. exact Hrest.
Qed.

(** Claim C6. When a call reads the bytes [p], [n >= 1] of them, at
    [offset], the request it sends has the [Content-Range] header
    [bytes offset-(offset+n-1)/Size], with the count of the bytes read and
    not the length asked for. The sum [offset + n] is taken not to exceed
    [2^64], as it does whenever [int64(offset)] is a position that a reader
    accepts. *)
Theorem content_range_counts_bytes_read fuel sent sessURL buffer offset length
    file p :
  Sends sessURL buffer offset length file p ->
  U64.in_range offset ->
  offset + Z.of_nat (List.length p) <= U64.modulus ->
  exists req rest,
    fst (uploadChunk s (S fuel) sent sessURL buffer offset length file) =
      (ReadAtCall length (U64.to_int64 offset) :: HTTPDo req :: rest)%list /\
    Header_Get "Content-Range" req =
      Some ("bytes " ++ format_d offset ++ "-"
              ++ format_d (offset + Z.of_nat (List.length p) - 1)
              ++ "/" ++ format_d (Size file)).
Proof.
  intros Hsends Hoffset Hsum.
  destruct (uploadChunk_sends s fuel sent Hsends) as [rest Hrest].
  exists (put_request sessURL p offset (Size file)), rest.
  split; [exact Hrest |].
  unfold put_request. rewrite lookup_Header_Set. unfold contentRange.
  rewrite range_end_exact; [reflexivity | exact Hoffset | | exact Hsum].
  destruct Hsends as [_ Hp _]. destruct p; [contradiction | simpl List.length; lia].
Qed.

End RangeProperties.

(** ** Every call of [uploadChunk] *)

Section Calls.

Context {lib : Library}.
Variable s : DriveItemsService.

(** When [on_response] reaches the tail call, the buffer is passed on and
    the next offset was parsed. *)
Lemma on_response_continues resp body buffer length tr buffer' nextOffset
    nextLength :
  on_response resp body buffer length = (tr, inl (buffer', nextOffset, nextLength)) ->
  buffer' = buffer /\ U64.in_range nextOffset.
Proof.
  unfold on_response.
  destruct ((StatusCode resp =? 200) || (StatusCode resp =? 201)).
  { destruct (Unmarshal_DriveItem body); discriminate. }
  destruct (StatusCode resp =? 202).
  - destruct (Unmarshal_UploadSession body) as [e | session]; [discriminate |].
    simpl.
    destruct (Z.of_nat (List.length (NextExpectedRanges session)) <? 1);
      [discriminate |].
    destruct (NextExpectedRanges session) as [| range0 ranges];
      [discriminate |].
    simpl.
    destruct (Split range0 dash) as [| start [| end_ frags]]; try discriminate.
    simpl.
    destruct (ParseUint start) as [e | n] eqn:Hstart; [discriminate |]. simpl.
    destruct (String.eqb end_ EmptyString).
    + simpl. intros H. injection H as _ <- <- _.
      split; [reflexivity | exact (ParseUint_in_range _ Hstart)].
    + destruct (ParseUint end_); [discriminate |].
      simpl. intros H. injection H as _ <- <- _.
      split; [reflexivity | exact (ParseUint_in_range _ Hstart)].
  - destruct (Unmarshal_ErrorResponse body) as [e | [response |]];
      try discriminate.
    simpl. destruct (Error_ response); discriminate.
Qed.

(** What a call can do: return before it sends, or send the bytes [p] it
    read and then return or reach the tail call. *)
Definition returns_unsent (offset length : Z) (tr : list event)
    (r : (Z * Z * Z) + outcome DriveItem) : Prop :=
  (exists o, r = inr o) /\
  (tr = [] \/ tr = [ReadAtCall length (U64.to_int64 offset)]).

Definition sends_chunk (sessURL : string) (buffer offset length : Z)
    (file : LargeFile) (tr : list event)
    (r : (Z * Z * Z) + outcome DriveItem) : Prop :=
  exists p,
    Sends sessURL buffer offset length file p /\
    tr = sent_events sessURL offset length file p /\
    match r with
    | inr _ => True
    | inl (buffer', nextOffset, _) =>
        buffer' = Z.of_nat (List.length p) /\ U64.in_range nextOffset
    end.

Lemma body_cases sent sessURL buffer offset length file :
  let run := uploadChunk_body s sent sessURL buffer offset length file in
  returns_unsent offset length (fst run) (snd run) \/
  sends_chunk sessURL buffer offset length file (fst run) (snd run).
Proof.
  unfold uploadChunk_body.
  assert (Halloc :
    (exists b, (if buffer <? length then make (T := DriveItem) length
                else pure buffer) = pure b /\ alloc_ok buffer length) \/
    (if buffer <? length then make (T := DriveItem) length else pure buffer)
      = halt (Panic MakeSliceLenOutOfRange)).
  { destruct (Z.ltb_spec buffer length) as [Hlt | Hge].
    - unfold make.
      destruct (Z.leb_spec 0 length); simpl; [| right; reflexivity].
      destruct (Z.leb_spec length maxAlloc); [| right; reflexivity].
      left. exists length. split; [reflexivity | right; lia].
    - left. exists buffer. split; [reflexivity | left; lia]. }
  destruct Halloc as [(b & -> & Halloc) | ->];
    [| left; split; [eexists; reflexivity | left; reflexivity]].
  destruct (Data file) as [data |] eqn:Hdata;
    [| left; split; [eexists; reflexivity | left; reflexivity]].
  simpl.
  destruct (ReadAt data length (U64.to_int64 offset)) as [p err] eqn:Hread.
  destruct (Z.of_nat (List.length p) =? 0) eqn:Hn.
  { left. split; [| right].
    - destruct err as [[ | | | | | ] |]; eexists; reflexivity.
    - destruct err as [[ | | | | | ] |]; reflexivity. }
  simpl. unfold NewRequest.
  destruct (NewRequest_err "PUT" sessURL) as [e |] eqn:Hreq;
    [left; split; [eexists; reflexivity | right; reflexivity] |].
  simpl. fold (put_request sessURL p offset (Size file)).
  assert (Hsends : Sends sessURL buffer offset length file p).
  { constructor.
    - exists err. constructor; [exact Halloc |]. exists data. auto.
    - intros ->. discriminate Hn.
    - exact Hreq. }
  right. exists p. split; [exact Hsends |].
  destruct (Do s sent (put_request sessURL p offset (Size file)))
    as [e | resp]; [split; [reflexivity | exact I] |].
  simpl. destruct (ResponseBody resp) as [e | body];
    [split; [reflexivity | exact I] |].
  simpl.
  pose proof (on_response_silent resp body (Z.of_nat (List.length p)) length)
    as Hsilent.
  destruct (on_response resp body (Z.of_nat (List.length p)) length)
    as [tr [[[buffer' nextOffset] nextLength] | o]] eqn:Hresp;
    simpl in Hsilent; subst tr; simpl.
  - split; [reflexivity |]. exact (on_response_continues _ _ _ _ Hresp).
  - split; [reflexivity | exact I].
Qed.

End Calls.

(** ** The chunks that are sent lie within the file *)

Lemma bytesReader_bounds (data : list byte) (len off : Z) (p : list byte)
    (err : option error) :
  bytesReader_ReadAt data len off = (p, err) ->
  p <> [] ->
  0 <= off < Z.of_nat (List.length data) /\
  off + Z.of_nat (List.length p) <= Z.of_nat (List.length data).
Proof.
  unfold bytesReader_ReadAt. intros Hread Hp.
  destruct (Z.ltb_spec off 0) as [Hneg | Hpos].
  { injection Hread as <- _. contradiction. }
  destruct (Z.leb_spec (Z.of_nat (List.length data)) off) as [Hpast | Hin].
  { injection Hread as <- _. contradiction. }
  injection Hread as <- _.
  split; [lia |].
  rewrite length_firstn, length_skipn. lia.
Qed.

Section Within.

Context {lib : Library}.
Variable s : DriveItemsService.

(** The request carries [n >= 1] bytes of the file, from [offset] on, and
    says so in its [Content-Range] header. *)
Definition within_file (file : LargeFile) (req : Request) : Prop :=
  exists offset n,
    0 <= offset < Size file /\
    1 <= n /\
    offset + n <= Size file /\
    Z.of_nat (List.length (Body req)) = n /\
    Header_Get "Content-Range" req =
      Some ("bytes " ++ format_d offset ++ "-" ++ format_d (offset + n - 1)
              ++ "/" ++ format_d (Size file)).

Lemma Sends_within sessURL buffer offset length file data p :
  Data file = Some (bytesReader data) ->
  Size file = Z.of_nat (List.length data) ->
  U64.in_range (Size file) ->
  U64.in_range offset ->
  Sends sessURL buffer offset length file p ->
  within_file file (put_request sessURL p offset (Size file)).
Proof.
  intros Hdata Hsize Hfits Hoffset [(err & _ & data' & Hdata' & Hread) Hp _].
  rewrite Hdata in Hdata'. injection Hdata' as <-. simpl in Hread.
  destruct (bytesReader_bounds _ _ _ Hread Hp) as [Hoff Hlen].
  assert (Heq : U64.to_int64 offset = offset).
  { unfold U64.to_int64 in *. unfold U64.in_range, U64.modulus in *.
    destruct (Z.ltb_spec offset (2 ^ 63)); lia. }
  rewrite Heq in Hoff, Hlen.
  assert (Hn : 1 <= Z.of_nat (List.length p)).
  { destruct p; [contradiction | simpl List.length; lia]. }
  exists offset, (Z.of_nat (List.length p)).
  repeat split; try lia.
  unfold put_request. rewrite lookup_Header_Set. unfold contentRange.
  rewrite range_end_exact; [reflexivity | exact Hoffset | exact Hn |].
  unfold U64.in_range in Hfits. lia.
Qed.

Lemma uploadChunk_within file data :
  Data file = Some (bytesReader data) ->
  Size file = Z.of_nat (List.length data) ->
  U64.in_range (Size file) ->
  forall fuel sent sessURL buffer offset length req,
    U64.in_range offset ->
    In (HTTPDo req)
       (fst (uploadChunk s fuel sent sessURL buffer offset length file)) ->
    within_file file req.
Proof.
  intros Hdata Hsize Hfits.
  induction fuel as [| fuel IH];
    intros sent sessURL buffer offset length req Hoffset Hin;
    [contradiction |].
  simpl in Hin.
  pose proof (body_cases s sent sessURL buffer offset length file) as Hcases.
  destruct (uploadChunk_body s sent sessURL buffer offset length file)
    as [tr r].
  simpl in Hcases.
  destruct Hcases as [[[o ->] Htr] | (p & Hsends & -> & Hnext)].
  - simpl in Hin.
    destruct Htr as [-> | ->]; simpl in Hin;
      [contradiction | destruct Hin as [Hin | []]; discriminate].
  - assert (Hhere : In (HTTPDo req) (sent_events sessURL offset length file p) ->
                    within_file file req).
    { intros [Hev | [Hev | []]]; [discriminate |].
      injection Hev as <-.
      exact (Sends_within Hdata Hsize Hfits Hoffset Hsends). }
    destruct r as [[[buffer' nextOffset] nextLength] | o].
    + destruct Hnext as [_ Hrange].
      destruct (uploadChunk s fuel (S sent) sessURL buffer' nextOffset
                  nextLength file) as [tr' r'] eqn:Hrest.
      cbn [fst] in Hin. apply in_app_or in Hin.
      destruct Hin as [Hin | Hin]; [exact (Hhere Hin) |].
      apply (IH (S sent) sessURL buffer' nextOffset nextLength req Hrange).
      rewrite Hrest. exact Hin.
    + exact (Hhere Hin).
Qed.

(** The request of the deferred function. *)
Definition delete_request (session : UploadSession) : Request :=
  {| Method := "DELETE"; URL := UploadUrl session; Header := []; Body := [] |}.

(** The deferred function sends its request when it can build it, and
    does nothing else. *)
Lemma cancel_events sent session :
  cancel s sent session =
    match NewRequest_err "DELETE" (UploadUrl session) with
    | Some _ => []
    | None => [HTTPDo (delete_request session)]
    end.
Proof.
  unfold cancel, NewRequest.
  destruct (NewRequest_err "DELETE" (UploadUrl session)); [reflexivity |].
  fold (delete_request session).
  destruct (Do s sent (delete_request session)) as [e | resp]; [reflexivity |].
  destruct (negb (StatusCode resp =? 204)); reflexivity.
Qed.

Lemma cancel_is_delete sent session req :
  In (HTTPDo req) (cancel s sent session) -> Method req = "DELETE".
Proof.
  rewrite cancel_events.
  destruct (NewRequest_err "DELETE" (UploadUrl session)); [contradiction |].
  intros [H | []]. injection H as <-. reflexivity.
Qed.

(** Claim C2, as the code has it. The pair that is resolved from an entry
    is not compared with the size of the file. What holds is this: when
    the data source holds exactly [Size] bytes, every chunk that
    [UploadLargeFile] sends starts at an offset below [Size] and ends, by
    the count of the bytes read and sent, at or before [Size]. *)
Theorem sent_chunks_within_file fuel destinationParentFolderId file opts data
    req :
  Data file = Some (bytesReader data) ->
  Size file = Z.of_nat (List.length data) ->
  U64.in_range (Size file) ->
  In (HTTPDo req)
     (fst (UploadLargeFile s fuel destinationParentFolderId file opts)) ->
  Method req = "PUT" ->
  within_file file req.
Proof.
  intros Hdata Hsize Hfits Hin Hput.
  unfold UploadLargeFile in Hin.
  destruct (String.eqb destinationParentFolderId EmptyString); [contradiction |].
  destruct (String.eqb (LargeFile_Name file) EmptyString); [contradiction |].
  destruct (Size file =? 0); [contradiction |].
  rewrite Hdata in Hin.
  destruct (BaseURL_Parse s _) as [e | apiUrl]; [contradiction |].
  destruct (NewRequest "POST" apiUrl []) as [e | post]; [contradiction |].
  destruct (client_Do s _) as [e | session].
  { destruct Hin as [Hin | []]. discriminate. }
  assert (Hcancel : forall sent, In (HTTPDo req) (cancel s sent session) -> False).
  { intros sent Hc. apply cancel_is_delete in Hc. rewrite Hput in Hc.
    discriminate. }
  destruct (make _) as [tr0 [buffer | o]].
  - destruct (uploadChunk s fuel 0 (UploadUrl session) buffer 0 _ file)
      as [tr r] eqn:Hrun.
    assert (Hchunks : In (HTTPDo req) tr -> within_file file req).
    { intros Htr.
      eapply (@uploadChunk_within file data Hdata Hsize Hfits fuel 0%nat
                (UploadUrl session) buffer 0).
      - unfold U64.in_range, U64.modulus. lia.
      - rewrite Hrun. exact Htr. }
    destruct r as [o |]; simpl in Hin.
    + destruct Hin as [Hin | Hin]; [discriminate |].
      apply in_app_or in Hin. destruct Hin as [Hin | Hin];
        [exact (Hchunks Hin) | destruct (Hcancel _ Hin)].
    + destruct Hin as [Hin | Hin]; [discriminate | exact (Hchunks Hin)].
  - simpl in Hin. destruct Hin as [Hin | Hin];
      [discriminate | destruct (Hcancel _ Hin)].
Qed.

End Within.

(** ** Termination *)

Section Termination.

Context {lib : Library}.
Variable s : DriveItemsService.
Variable sessURL : string.
Variable file : LargeFile.

(** The arguments of the calls of [uploadChunk] that a first call leads to:
    [reaches sent0 buffer0 offset0 length0 sent buffer offset length]. *)
Inductive reaches (sent0 : nat) (buffer0 offset0 length0 : Z)
    : nat -> Z -> Z -> Z -> Prop :=
| reaches_first : reaches sent0 buffer0 offset0 length0 sent0 buffer0 offset0 length0
| reaches_next sent buffer offset length tr buffer' nextOffset nextLength :
    reaches sent0 buffer0 offset0 length0 sent buffer offset length ->
    uploadChunk_body s sent sessURL buffer offset length file =
      (tr, inl (buffer', nextOffset, nextLength)) ->
    reaches sent0 buffer0 offset0 length0 (S sent) buffer' nextOffset nextLength.

(** Every 202 response that makes a call go on names an offset beyond the
    offset of that call. *)
Definition advancing (sent0 : nat) (buffer0 offset0 length0 : Z) : Prop :=
  forall sent buffer offset length tr buffer' nextOffset nextLength,
    reaches sent0 buffer0 offset0 length0 sent buffer offset length ->
    uploadChunk_body s sent sessURL buffer offset length file =
      (tr, inl (buffer', nextOffset, nextLength)) ->
    offset < nextOffset.

(** The source is finite: it has no byte before position 0 nor from
    position [size] on. *)
Definition finite_source (size : Z) : Prop :=
  forall data len off,
    Data file = Some data ->
    off < 0 \/ size <= off ->
    fst (ReadAt data len off) = [].

Lemma Sends_below_size buffer offset length p size :
  finite_source size ->
  U64.in_range offset ->
  Sends sessURL buffer offset length file p ->
  offset < size.
Proof.
  intros Hfinite Hoffset [(err & _ & data & Hdata & Hread) Hp _].
  destruct (Z.lt_ge_cases (U64.to_int64 offset) 0) as [Hneg | Hpos].
  { exfalso. apply Hp.
    rewrite <- (Hfinite data length (U64.to_int64 offset) Hdata (or_introl Hneg)).
    rewrite Hread. reflexivity. }
  destruct (Z.lt_ge_cases (U64.to_int64 offset) size) as [Hlt | Hge].
  - unfold U64.to_int64, U64.in_range, U64.modulus in *.
    destruct (Z.ltb_spec offset (2 ^ 63)); lia.
  - exfalso. apply Hp.
    rewrite <- (Hfinite data length (U64.to_int64 offset) Hdata (or_intror Hge)).
    rewrite Hread. reflexivity.
Qed.

Lemma uploadChunk_ends size sent0 buffer0 offset0 length0 :
  finite_source size ->
  advancing sent0 buffer0 offset0 length0 ->
  forall fuel sent buffer offset length,
    reaches sent0 buffer0 offset0 length0 sent buffer offset length ->
    U64.in_range offset ->
    (Z.to_nat (size - offset) < fuel)%nat ->
    exists o,
      snd (uploadChunk s fuel sent sessURL buffer offset length file) = Some o.
Proof.
  intros Hfinite Hadvancing.
  induction fuel as [| fuel IH]; intros sent buffer offset length Hreach
    Hoffset Hfuel; [lia |].
  simpl.
  pose proof (body_cases s sent sessURL buffer offset length file) as Hcases.
  pose proof (Hadvancing sent buffer offset length) as Hadv.
  pose proof (@reaches_next sent0 buffer0 offset0 length0 sent buffer offset
                length) as Hnext.
  destruct (uploadChunk_body s sent sessURL buffer offset length file)
    as [tr r].
  simpl in Hcases.
  destruct Hcases as [[[o ->] _] | (p & Hsends & _ & Hrange)].
  - exists o. reflexivity.
  - destruct r as [[[buffer' nextOffset] nextLength] | o];
      [| exists o; reflexivity].
    destruct Hrange as [_ Hrange].
    pose proof (Sends_below_size Hfinite Hoffset Hsends) as Hbelow.
    pose proof (Hadv tr buffer' nextOffset nextLength Hreach eq_refl) as Hlt.
    destruct (IH (S sent) buffer' nextOffset nextLength) as [o Ho].
    + exact (Hnext tr buffer' nextOffset nextLength Hreach eq_refl).
    + exact Hrange.
    + lia.
    + destruct (uploadChunk s fuel (S sent) sessURL buffer' nextOffset
                  nextLength file) as [tr' r'].
      exists o. exact Ho.
Qed.

(** Claim C4, as the code has it. For a finite source and responses of
    which every 202 that makes the upload go on names an offset beyond
    the offset of the chunk it answers, the calls of [uploadChunk] come to
    an end with an outcome, after at most one call for every position of
    the source between the first offset and its end, and one more. The
    code has no check of the next offset against the present one. *)
Theorem advancing_upload_terminates size sent buffer offset length :
  finite_source size ->
  U64.in_range offset ->
  advancing sent buffer offset length ->
  exists o,
    snd (uploadChunk s (S (Z.to_nat (size - offset))) sent sessURL buffer
           offset length file) = Some o.
Proof.
  intros Hfinite Hoffset Hadvancing.
  apply (uploadChunk_ends Hfinite Hadvancing);
    [apply reaches_first | exact Hoffset | lia].
Qed.

End Termination.

Lemma bytesReader_finite (name : string) (size : Z) (data : list byte) :
  finite_source
    {| LargeFile_Name := name; Size := size; Data := Some (bytesReader data) |}
    (Z.of_nat (List.length data)).
Proof.
  intros reader len off Hdata Hoff. simpl in Hdata. injection Hdata as <-.
  simpl. unfold bytesReader_ReadAt.
  destruct (Z.ltb_spec off 0); [reflexivity |].
  destruct (Z.leb_spec (Z.of_nat (List.length data)) off); [reflexivity | lia].
Qed.

(** ** The deferred cancellation *)

Section Cancellation.

Context {lib : Library}.

(** [uploadChunk] asks the raw client for nothing but its [PUT] requests. *)
Lemma uploadChunk_body_ext (s s' : DriveItemsService) :
  (forall k req, Method req = "PUT" -> Do s' k req = Do s k req) ->
  forall sent sessURL buffer offset length file,
    uploadChunk_body s' sent sessURL buffer offset length file =
    uploadChunk_body s sent sessURL buffer offset length file.
Proof.
  intros Hput sent sessURL buffer offset length file.
  unfold uploadChunk_body.
  destruct (if buffer <? length then make (T := DriveItem) length
            else pure buffer) as [tr0 [b | o]]; [| reflexivity].
  simpl. destruct (Data file) as [data |]; [| reflexivity].
  simpl. destruct (ReadAt data length (U64.to_int64 offset)) as [p err].
  destruct (Z.of_nat (List.length p) =? 0);
    [destruct err as [[ | | | | | ] |]; reflexivity |].
  simpl. unfold NewRequest.
  destruct (NewRequest_err "PUT" sessURL); [reflexivity |].
  simpl. rewrite Hput by reflexivity. reflexivity.
Qed.

Lemma uploadChunk_ext (s s' : DriveItemsService) :
  (forall k req, Method req = "PUT" -> Do s' k req = Do s k req) ->
  forall fuel sent sessURL buffer offset length file,
    uploadChunk s' fuel sent sessURL buffer offset length file =
    uploadChunk s fuel sent sessURL buffer offset length file.
Proof.
  intros Hput. induction fuel as [| fuel IH]; intros; [reflexivity |].
  simpl. rewrite (uploadChunk_body_ext s s' Hput).
  destruct (uploadChunk_body s sent sessURL buffer offset length file)
    as [tr [[[buffer' nextOffset] nextLength] | o]]; [| reflexivity].
  rewrite IH. reflexivity.
Qed.

Variable s : DriveItemsService.

(** Claim C9. Let a call of [UploadLargeFile] return or panic (with [o])
    after its session request [req] was answered with [session]. Then
    the log is that request, the events of the chunks, and last the
    [DELETE] request to the URL of the session, which is left out only
    when that request cannot be built. And the outcome owes nothing to
    the cancellation: with any raw client that differs from this one in
    its answers to [DELETE] requests alone, the outcome is the same. *)
Theorem cancellation_on_every_exit fuel destinationParentFolderId file opts
    tr o req session :
  UploadLargeFile s fuel destinationParentFolderId file opts = (tr, Some o) ->
  hd_error tr = Some (ClientDo req) ->
  client_Do s req = inr session ->
  (exists chunks,
     tr = (ClientDo req :: chunks ++
             match NewRequest_err "DELETE" (UploadUrl session) with
             | Some _ => []
             | None => [HTTPDo (delete_request session)]
             end)%list) /\
  (forall s',
     (forall url, BaseURL_Parse s' url = BaseURL_Parse s url) ->
     (forall post, client_Do s' post = client_Do s post) ->
     (forall k r, Method r <> "DELETE" -> Do s' k r = Do s k r) ->
     snd (UploadLargeFile s' fuel destinationParentFolderId file opts) = Some o).
Proof.
  intros Hrun Hhead Hsession. split.
  - unfold UploadLargeFile in Hrun.
    destruct (String.eqb destinationParentFolderId EmptyString);
      [injection Hrun as <- _; discriminate |].
    destruct (String.eqb (LargeFile_Name file) EmptyString);
      [injection Hrun as <- _; discriminate |].
    destruct (Size file =? 0); [injection Hrun as <- _; discriminate |].
    destruct (Data file); [| injection Hrun as <- _; discriminate].
    destruct (BaseURL_Parse s _) as [e | apiUrl];
      [injection Hrun as <- _; discriminate |].
    destruct (NewRequest "POST" apiUrl []) as [e | post];
      [injection Hrun as <- _; discriminate |].
    destruct (client_Do s (Header_Set "Content-Type" "application/json" post))
      as [e | session'] eqn:Hclient.
    { injection Hrun as <- _. simpl in Hhead. injection Hhead as <-.
      rewrite Hclient in Hsession. discriminate. }
    assert (Hsame : forall rest,
              hd_error (ClientDo (Header_Set "Content-Type" "application/json" post)
                          :: rest) = Some (ClientDo req) ->
              Header_Set "Content-Type" "application/json" post = req /\
              session' = session).
    { intros rest Hhd. simpl in Hhd. injection Hhd as Hreq. split; [exact Hreq |].
      rewrite Hreq, Hsession in Hclient. injection Hclient as ->. reflexivity. }
    destruct (make _) as [tr0 [buffer | o']].
    + destruct (uploadChunk s fuel 0 (UploadUrl session') buffer 0 _ file)
        as [chunks [o' |]]; [| discriminate].
      injection Hrun as <- <-.
      destruct (Hsame _ Hhead) as [-> ->].
      exists chunks. rewrite cancel_events. reflexivity.
    + injection Hrun as <- <-.
      destruct (Hsame _ Hhead) as [-> ->].
      exists []. rewrite cancel_events. reflexivity.
  - intros s' Hbase Hdo Hraw.
    assert (Hput : forall k r, Method r = "PUT" -> Do s' k r = Do s k r).
    { intros k r Hmethod. apply Hraw. rewrite Hmethod. discriminate. }
    unfold UploadLargeFile in *.
    destruct (String.eqb destinationParentFolderId EmptyString);
      [injection Hrun as _ <-; reflexivity |].
    destruct (String.eqb (LargeFile_Name file) EmptyString);
      [injection Hrun as _ <-; reflexivity |].
    destruct (Size file =? 0); [injection Hrun as _ <-; reflexivity |].
    destruct (Data file); [| injection Hrun as _ <-; reflexivity].
    rewrite Hbase.
    destruct (BaseURL_Parse s _) as [e | apiUrl];
      [injection Hrun as _ <-; reflexivity |].
    destruct (NewRequest "POST" apiUrl []) as [e | post];
      [injection Hrun as _ <-; reflexivity |].
    rewrite Hdo.
    destruct (client_Do s (Header_Set "Content-Type" "application/json" post))
      as [e | session']; [injection Hrun as _ <-; reflexivity |].
    destruct (make _) as [tr0 [buffer | o']].
    + rewrite (uploadChunk_ext s s' Hput).
      destruct (uploadChunk s fuel 0 (UploadUrl session') buffer 0 _ file)
        as [chunks [o' |]]; [| discriminate].
      injection Hrun as _ <-. reflexivity.
    + injection Hrun as _ <-. reflexivity.
Qed.

End Cancellation.

(** ** Further properties of [uploadChunk] and [UploadLargeFile] *)

Section Engine.

Context {lib : Library}.
Variable s : DriveItemsService.

(** A response with status 200 or 201 ends the upload (lines 760-765): the
    call returns the item the body decodes to, or the error of the
    decoder, and its log ends with the request that was answered. *)
Theorem completion_returns_item fuel sent sessURL buffer offset length file p
    resp body :
  Receives s sent sessURL buffer offset length file p resp body ->
  StatusCode resp = 200 \/ StatusCode resp = 201 ->
  uploadChunk s (S fuel) sent sessURL buffer offset length file =
    (sent_events sessURL offset length file p,
     Some match Unmarshal_DriveItem body with
          | inl e => Err e
          | inr item => Ok item
          end).
Proof.
  intros Hrecv Hcode.
  apply (uploadChunk_answered fuel Hrecv).
  unfold on_response.
  replace ((StatusCode resp =? 200) || (StatusCode resp =? 201)) with true
    by (destruct Hcode as [-> | ->]; reflexivity).
  destruct (Unmarshal_DriveItem body); reflexivity.
Qed.

(** A chunk is sent once (lines 747-756): when the round trip fails, the
    call returns that error as [processHTTPError] gives it, and when the
    body of the response cannot be read, it returns that error; in both
    cases the log holds the one read and the one request, so nothing is
    sent again. *)
Theorem failed_round_trip_is_final fuel sent sessURL buffer offset length file
    p :
  Sends sessURL buffer offset length file p ->
  (forall e,
     Do s sent (put_request sessURL p offset (Size file)) = inl e ->
     uploadChunk s (S fuel) sent sessURL buffer offset length file =
       (sent_events sessURL offset length file p,
        Some (Err (processHTTPError e)))) /\
  (forall resp e,
     Do s sent (put_request sessURL p offset (Size file)) = inr resp ->
     ResponseBody resp = inl e ->
     uploadChunk s (S fuel) sent sessURL buffer offset length file =
       (sent_events sessURL offset length file p, Some (Err e))).
Proof.
  intros [(err & Halloc & data & Hdata & Hread) Hp Hreq].
  assert (Hbody : forall r,
    match Do s sent (put_request sessURL p offset (Size file)) with
    | inl e => Some (Err (processHTTPError e))
    | inr resp => match ResponseBody resp with
                  | inl e => Some (Err e)
                  | inr _ => None
                  end
    end = Some r ->
    uploadChunk s (S fuel) sent sessURL buffer offset length file =
      (sent_events sessURL offset length file p, Some r)).
  { intros r Hr. apply uploadChunk_returns.
    unfold uploadChunk_body.
    destruct (resize_ok Halloc) as [b ->].
    rewrite Hdata. simpl. rewrite Hread. simpl.
    rewrite (length_nonzero Hp). simpl.
    unfold NewRequest. rewrite Hreq. simpl.
    fold (put_request sessURL p offset (Size file)).
    destruct (Do s sent (put_request sessURL p offset (Size file)))
      as [e | resp].
    - injection Hr as <-. reflexivity.
    - simpl. destruct (ResponseBody resp) as [e | body]; [| discriminate].
      injection Hr as <-. reflexivity. }
  split.
  - intros e He. apply Hbody. rewrite He. reflexivity.
  - intros resp e Hresp He. apply Hbody. rewrite Hresp, He. reflexivity.
Qed.

(** A [PUT] to the URL of the session with a body that is not empty, whose
    length is its [Content-Length] and the count in its [Content-Range]. *)
Definition chunk_request (sessURL : string) (file : LargeFile)
    (req : Request) : Prop :=
  Method req = "PUT" /\
  URL req = sessURL /\
  Body req <> [] /\
  Header_Get "Content-Length" req =
    Some (format_d (Z.of_nat (List.length (Body req)))) /\
  exists offset,
    Header_Get "Content-Range" req =
      Some (contentRange offset (Z.of_nat (List.length (Body req))) (Size file)).

Lemma chunk_requests_of_uploadChunk fuel :
  forall sent sessURL buffer offset length file req,
    In (HTTPDo req)
       (fst (uploadChunk s fuel sent sessURL buffer offset length file)) ->
    chunk_request sessURL file req.
Proof.
  induction fuel as [| fuel IH];
    intros sent sessURL buffer offset length file req Hin; [contradiction |].
  simpl in Hin.
  pose proof (body_cases s sent sessURL buffer offset length file) as Hcases.
  destruct (uploadChunk_body s sent sessURL buffer offset length file)
    as [tr r].
  simpl in Hcases.
  destruct Hcases as [[[o ->] Htr] | (p & Hsends & -> & _)].
  - simpl in Hin.
    destruct Htr as [-> | ->]; simpl in Hin;
      [contradiction | destruct Hin as [Hin | []]; discriminate].
  - assert (Hhere : In (HTTPDo req) (sent_events sessURL offset length file p) ->
                    chunk_request sessURL file req).
    { intros [Hev | [Hev | []]]; [discriminate |].
      injection Hev as <-. destruct Hsends as [_ Hp _].
      repeat split; try assumption.
      exists offset. unfold put_request. apply lookup_Header_Set. }
    destruct r as [[[buffer' nextOffset] nextLength] | o];
      [| exact (Hhere Hin)].
    destruct (uploadChunk s fuel (S sent) sessURL buffer' nextOffset
                nextLength file) as [tr' r'] eqn:Hrest.
    cbn [fst] in Hin. apply in_app_or in Hin.
    destruct Hin as [Hin | Hin]; [exact (Hhere Hin) |].
    apply (IH (S sent) sessURL buffer' nextOffset nextLength file req).
    rewrite Hrest. exact Hin.
Qed.

(** Every request that [uploadChunk] makes, in all its calls, is a [PUT] to
    the URL of the session with a body that is not empty, whose length is
    its [Content-Length] and the count in its [Content-Range]
    (lines 723-746): no empty chunk is sent, and none to another URL. *)
Theorem uploadChunk_sends_chunk_requests fuel sent sessURL buffer offset length
    file req :
  In (HTTPDo req)
     (fst (uploadChunk s fuel sent sessURL buffer offset length file)) ->
  chunk_request sessURL file req.
Proof. apply chunk_requests_of_uploadChunk. Qed.

(** A read of no bytes inside the file: a read into an empty slice stores
    nothing and reports no error, and the call returns neither an item
    nor an error. *)
Lemma zero_length_returns_nothing fuel sent sessURL buffer offset file data :
  Data file = Some (bytesReader data) ->
  0 <= buffer ->
  0 <= offset < Z.of_nat (List.length data) ->
  offset < 2 ^ 63 ->
  uploadChunk s (S fuel) sent sessURL buffer offset 0 file =
    ([ReadAtCall 0 offset], Some NilNil).
Proof.
  intros Hdata Hbuffer Hoffset Hint.
  apply uploadChunk_returns.
  assert (Hreads : Reads buffer offset 0 file [] None).
  { constructor; [left; exact Hbuffer |].
    exists (bytesReader data). split; [exact Hdata |].
    simpl. rewrite U64.to_int64_small by lia.
    unfold bytesReader_ReadAt.
    destruct (Z.ltb_spec offset 0); [lia |].
    destruct (Z.leb_spec (Z.of_nat (List.length data)) offset); [lia |].
    reflexivity. }
  rewrite (body_reads_nothing s sent sessURL Hreads).
  rewrite U64.to_int64_small by lia. reflexivity.
Qed.

(** A chunk of length 0 inside the file (lines 723-733 after lines
    778-793). The comment of line 724 takes the error of an empty read to
    be non-nil; but when a 202 response has a first entry that resolves
    to the length 0, such as [4-0], the next call reads into an empty
    slice, which stores nothing and reports no error, and [uploadChunk]
    returns neither an item nor an error. *)
Theorem zero_length_range_returns_nothing fuel sent sessURL buffer offset
    length file data p resp body session entry ranges nextOffset :
  Receives s sent sessURL buffer offset length file p resp body ->
  StatusCode resp = 202 ->
  Unmarshal_UploadSession body = inr session ->
  NextExpectedRanges session = entry :: ranges ->
  range_resolves entry length nextOffset 0 ->
  Data file = Some (bytesReader data) ->
  nextOffset < Z.of_nat (List.length data) ->
  nextOffset < 2 ^ 63 ->
  uploadChunk s (S (S fuel)) sent sessURL buffer offset length file =
    ((sent_events sessURL offset length file p ++ [ReadAtCall 0 nextOffset])%list,
     Some NilNil).
Proof.
  intros Hrecv Hcode Hsession Hranges Hresolves Hdata Hbelow Hint.
  rewrite (uploadChunk_accepted (S fuel) Hrecv Hcode Hsession Hranges Hresolves).
  assert (Hrange : 0 <= nextOffset).
  { destruct Hresolves as (start & end_ & frags & _ & Hstart & _).
    apply ParseUint_in_range in Hstart. unfold U64.in_range in Hstart. lia. }
  cbv zeta.
  rewrite (@zero_length_returns_nothing fuel (S sent) sessURL
             (Z.of_nat (List.length p)) nextOffset file data Hdata);
    [reflexivity | lia | lia | exact Hint].
Qed.

(** [UploadLargeFile] reads the file and uses the raw client only after
    the session was created (lines 684-708): an event of its log that is
    not the session request is there only when the log starts with a
    session request that was answered with a session. *)
Theorem nothing_before_session fuel destinationParentFolderId file opts ev :
  In ev (fst (UploadLargeFile s fuel destinationParentFolderId file opts)) ->
  (forall post, ev <> ClientDo post) ->
  exists post session,
    hd_error (fst (UploadLargeFile s fuel destinationParentFolderId file opts))
      = Some (ClientDo post) /\
    client_Do s post = inr session.
Proof.
  unfold UploadLargeFile. intros Hin Hev.
  destruct (String.eqb destinationParentFolderId EmptyString); [contradiction |].
  destruct (String.eqb (LargeFile_Name file) EmptyString); [contradiction |].
  destruct (Size file =? 0); [contradiction |].
  destruct (Data file); [| contradiction].
  destruct (BaseURL_Parse s _) as [e | apiUrl]; [contradiction |].
  destruct (NewRequest "POST" apiUrl []) as [e | post]; [contradiction |].
  destruct (client_Do s (Header_Set "Content-Type" "application/json" post))
    as [e | session] eqn:Hclient.
  { destruct Hin as [Hin | []]. destruct (Hev _ (eq_sym Hin)). }
  exists (Header_Set "Content-Type" "application/json" post), session.
  split; [| exact Hclient].
  destruct (make _) as [tr0 [buffer | o]]; [| reflexivity].
  destruct (uploadChunk s fuel 0 (UploadUrl session) buffer 0 _ file)
    as [tr [o |]]; reflexivity.
Qed.

(** When the session request fails, [UploadLargeFile] returns its error
    and has done nothing else (lines 684-688): no chunk is read or sent,
    and no cancellation is sent, as there is no session to cancel. *)
Theorem failed_session_ends_upload fuel destinationParentFolderId file opts
    post e :
  hd_error (fst (UploadLargeFile s fuel destinationParentFolderId file opts))
    = Some (ClientDo post) ->
  client_Do s post = inl e ->
  UploadLargeFile s fuel destinationParentFolderId file opts =
    ([ClientDo post], Some (Err e)).
Proof.
  unfold UploadLargeFile. intros Hhead Hclient.
  destruct (String.eqb destinationParentFolderId EmptyString); [discriminate |].
  destruct (String.eqb (LargeFile_Name file) EmptyString); [discriminate |].
  destruct (Size file =? 0); [discriminate |].
  destruct (Data file); [| discriminate].
  destruct (BaseURL_Parse s _) as [e' | apiUrl]; [discriminate |].
  destruct (NewRequest "POST" apiUrl []) as [e' | post']; [discriminate |].
  destruct (client_Do s (Header_Set "Content-Type" "application/json" post'))
    as [e' | session] eqn:Hdo.
  { simpl in Hhead. injection Hhead as <-.
    rewrite Hdo in Hclient. injection Hclient as <-. reflexivity. }
  assert (Hpost : Header_Set "Content-Type" "application/json" post' = post).
  { destruct (make _) as [tr0 [buffer | o]].
    - destruct (uploadChunk s fuel 0 (UploadUrl session) buffer 0 _ file)
        as [tr [o |]]; simpl in Hhead; injection Hhead as <-; reflexivity.
    - simpl in Hhead. injection Hhead as <-. reflexivity. }
  rewrite Hpost, Hclient in Hdo. discriminate.
Qed.

End Engine.

(** ** Offsets in decimal: what [%d] prints, [ParseUint] reads *)

(** The number that the digits [d] stand for after the digits of [acc]. *)
Fixpoint uint_value (d : Decimal.uint) (acc : Z) : Z :=
  match d with
  | Decimal.Nil => acc
  | Decimal.D0 l => uint_value l (10 * acc)
  | Decimal.D1 l => uint_value l (10 * acc + 1)
  | Decimal.D2 l => uint_value l (10 * acc + 2)
  | Decimal.D3 l => uint_value l (10 * acc + 3)
  | Decimal.D4 l => uint_value l (10 * acc + 4)
  | Decimal.D5 l => uint_value l (10 * acc + 5)
  | Decimal.D6 l => uint_value l (10 * acc + 6)
  | Decimal.D7 l => uint_value l (10 * acc + 7)
  | Decimal.D8 l => uint_value l (10 * acc + 8)
  | Decimal.D9 l => uint_value l (10 * acc + 9)
  end.

Lemma of_uint_acc_value (d : Decimal.uint) :
  forall acc, Z.pos (Pos.of_uint_acc d acc) = uint_value d (Z.pos acc).
Proof.
  induction d as [| l IH | l IH | l IH | l IH | l IH | l IH | l IH | l IH
                 | l IH | l IH]; intros acc;
    cbn [Pos.of_uint_acc uint_value]; [reflexivity | ..];
    rewrite IH; f_equal; lia.
Qed.

Lemma of_uint_value (d : Decimal.uint) :
  Z.of_N (Pos.of_uint d) = uint_value d 0.
Proof.
  induction d as [| l IH | l IH | l IH | l IH | l IH | l IH | l IH | l IH
                 | l IH | l IH]; cbn [Pos.of_uint uint_value];
    [reflexivity | exact IH | ..];
    rewrite N2Z.inj_pos; apply of_uint_acc_value.
Qed.

Lemma uint_value_le (d : Decimal.uint) :
  forall acc, 0 <= acc -> acc <= uint_value d acc.
Proof.
  induction d as [| l IH | l IH | l IH | l IH | l IH | l IH | l IH | l IH
                 | l IH | l IH]; intros acc Hacc; cbn [uint_value]; [lia | ..];
    match goal with
    | |- _ <= uint_value l ?acc' =>
        pose proof (IH acc' ltac:(lia)); lia
    end.
Qed.

(** One turn of the loop of [ParseUint] on a digit that fits. *)
Lemma ParseUint_loop_digit (c : ascii) (rest : string) (acc k : Z) :
  is_digit c = true ->
  digit_value c = k ->
  0 <= k <= 9 ->
  0 <= acc ->
  10 * acc + k <= U64.max ->
  ParseUint_loop (String c rest) acc = ParseUint_loop rest (10 * acc + k).
Proof.
  intros Hdigit Hvalue Hk Hacc Hfits.
  cbn [ParseUint_loop]. rewrite Hdigit, Hvalue.
  unfold cutoff, U64.mul, U64.add, U64.wrap, U64.max, U64.modulus in *.
  change (2 ^ 64) with 18446744073709551616 in *.
  change ((18446744073709551616 - 1) / 10 + 1) with 1844674407370955162.
  destruct (Z.leb_spec 1844674407370955162 acc); [lia |].
  rewrite (Z.mod_small (acc * 10)) by lia.
  rewrite (Z.mod_small (acc * 10 + k)) by lia.
  destruct (Z.ltb_spec (acc * 10 + k) (acc * 10)); [lia |].
  destruct (Z.ltb_spec (18446744073709551616 - 1) (acc * 10 + k)); [lia |].
  cbn [orb]. f_equal. lia.
Qed.

Lemma ParseUint_loop_digits (d : Decimal.uint) :
  forall acc,
    0 <= acc ->
    uint_value d acc <= U64.max ->
    ParseUint_loop (NilEmpty.string_of_uint d) acc = inr (uint_value d acc).
Proof.
  induction d as [| l IH | l IH | l IH | l IH | l IH | l IH | l IH | l IH
                 | l IH | l IH]; intros acc Hacc Hfits;
    [reflexivity | ..];
    cbn [NilEmpty.string_of_uint uint_value] in *;
    match goal with
    | |- ParseUint_loop (String ?c _) _ = inr (uint_value l ?acc') =>
        pose proof (uint_value_le l (acc := acc') ltac:(lia));
        let k := eval vm_compute in (digit_value c) in
        rewrite (@ParseUint_loop_digit c _ acc k)
          by (first [reflexivity | lia]);
        replace (10 * acc + k) with acc' by lia;
        apply IH; lia
    end.
Qed.

Lemma digits_without_dash (d : Decimal.uint) :
  contains (NilEmpty.string_of_uint d) dash = false.
Proof.
  induction d as [| l IH | l IH | l IH | l IH | l IH | l IH | l IH | l IH
                 | l IH | l IH]; simpl; [reflexivity | ..]; exact IH.
Qed.

Lemma format_d_without_dash (n : Z) : contains (format_d n) dash = false.
Proof.
  unfold format_d, NilZero.string_of_uint.
  destruct (N.to_uint (Z.to_N n)) eqn:Hd; try reflexivity;
    rewrite <- Hd; apply digits_without_dash.
Qed.

Lemma ParseUint_format_d (n : Z) :
  U64.in_range n -> ParseUint (format_d n) = inr n.
Proof.
  intros Hn. unfold format_d.
  assert (Hvalue : uint_value (N.to_uint (Z.to_N n)) 0 = n).
  { rewrite <- of_uint_value.
    change (Pos.of_uint (N.to_uint (Z.to_N n)))
      with (N.of_uint (N.to_uint (Z.to_N n))).
    rewrite DecimalN.Unsigned.of_to. unfold U64.in_range in Hn. lia. }
  assert (Hloop :
    ParseUint_loop (NilEmpty.string_of_uint (N.to_uint (Z.to_N n))) 0 = inr n).
  { rewrite ParseUint_loop_digits; [rewrite Hvalue; reflexivity | lia |].
    rewrite Hvalue. unfold U64.in_range, U64.max in *. lia. }
  unfold NilZero.string_of_uint, ParseUint.
  destruct (N.to_uint (Z.to_N n)) as [| l | l | l | l | l | l | l | l | l | l];
    [simpl in Hvalue; subst n; reflexivity | ..];
    cbn [NilEmpty.string_of_uint] in *; rewrite Hloop; reflexivity.
Qed.

(** The entry [n-], with [n] in decimal, resolves to the offset [n] and to
    the length of the chunk before. *)
Lemma decimal_open_range_resolves (n length : Z) :
  U64.in_range n ->
  range_resolves (format_d n ++ "-") length n length.
Proof.
  intros Hn.
  apply open_range_reuses_length;
    [apply format_d_without_dash | exact (ParseUint_format_d Hn)].
Qed.

(** ** A whole upload against a server that follows the protocol *)

(** The bytes of [data] in pieces of [c]: piece [k] starts at [k * c]. *)
Definition piece (c : nat) (data : list byte) (k : nat) : list byte :=
  firstn c (skipn (k * c) data).

Lemma pieces_concat (c : nat) :
  forall n data,
    (List.length data <= n * c)%nat ->
    List.concat (map (piece c data) (seq 0 n)) = data.
Proof.
  induction n as [| n IH]; intros data Hlen.
  - destruct data; [reflexivity | simpl in Hlen; lia].
  - rewrite <- cons_seq, <- seq_shift. rewrite map_cons, map_map.
    cbn [List.concat].
    rewrite (map_ext (fun k => piece c data (S k)) (piece c (skipn c data))).
    + rewrite IH.
      * unfold piece. simpl. apply firstn_skipn.
      * rewrite length_skipn. lia.
    + intros k. unfold piece. rewrite skipn_skipn. f_equal. f_equal. lia.
Qed.

Lemma piece_length (c : nat) (data : list byte) (k : nat) :
  List.length (piece c data k) = Nat.min c (List.length data - k * c).
Proof. unfold piece. rewrite length_firstn, length_skipn. reflexivity. Qed.

Section Coverage.

Context {lib : Library}.
Variable s : DriveItemsService.
Variable sessURL : string.
Variable file : LargeFile.
Variable data : list byte.
Variable c : nat.
Variable m : nat.
Variable item : DriveItem.

(** The file is read from memory, its chunks have [c > 0] bytes and there
    are [m] of them; requests to the URL of the session can be built. *)
Hypothesis Hdata : Data file = Some (bytesReader data).
Hypothesis Hint : Z.of_nat (List.length data) < 2 ^ 63.
Hypothesis Hc : (0 < c)%nat.
Hypothesis Hm : (m * c < List.length data + c <= S m * c)%nat.
Hypothesis Hurl : NewRequest_err "PUT" sessURL = None.

(** The request for the piece [k]. *)
Definition piece_request (k : nat) : Request :=
  put_request sessURL (piece c data k) (Z.of_nat (k * c)) (Size file).

(** The server answers every request but the last with 202 and the next
    range [n-], where [n] is the offset after the piece received, and the
    last request with 200 or 201 and the item. *)
Definition answers_next (k : nat) : Prop :=
  exists resp body session ranges,
    Do s k (piece_request k) = inr resp /\
    StatusCode resp = 202 /\
    ResponseBody resp = inr body /\
    Unmarshal_UploadSession body = inr session /\
    NextExpectedRanges session =
      (format_d (Z.of_nat (S k * c)) ++ "-") :: ranges.

Definition answers_item (k : nat) : Prop :=
  exists resp body,
    Do s k (piece_request k) = inr resp /\
    (StatusCode resp = 200 \/ StatusCode resp = 201) /\
    ResponseBody resp = inr body /\
    Unmarshal_DriveItem body = inr item.

Hypothesis Hnext : forall k, (S k < m)%nat -> answers_next k.
Hypothesis Hitem : forall k, S k = m -> answers_item k.

Lemma piece_Sends (k : nat) :
  (k < m)%nat ->
  Sends sessURL (Z.of_nat c) (Z.of_nat (k * c)) (Z.of_nat c) file
    (piece c data k).
Proof.
  intros Hk.
  assert (Hbelow : (k * c < List.length data)%nat) by nia.
  assert (Hpiece : piece c data k <> []).
  { intros Hnil. apply (f_equal (@List.length byte)) in Hnil.
    rewrite piece_length in Hnil. simpl in Hnil. lia. }
  constructor; [| exact Hpiece | exact Hurl].
  exists (if Z.of_nat (List.length (piece c data k)) <? Z.of_nat c
          then Some io_EOF else None).
  constructor; [left; lia |].
  exists (bytesReader data). split; [exact Hdata |].
  rewrite U64.to_int64_small by lia.
  simpl. unfold bytesReader_ReadAt.
  destruct (Z.ltb_spec (Z.of_nat (k * c)) 0); [lia |].
  destruct (Z.leb_spec (Z.of_nat (List.length data)) (Z.of_nat (k * c)));
    [lia |].
  rewrite !Nat2Z.id. reflexivity.
Qed.

Lemma full_piece (k : nat) :
  (S k < m)%nat -> List.length (piece c data k) = c.
Proof. intros Hk. rewrite piece_length. nia. Qed.

Lemma on_response_completed resp body buffer length :
  StatusCode resp = 200 \/ StatusCode resp = 201 ->
  Unmarshal_DriveItem body = inr item ->
  on_response resp body buffer length = halt (Ok item).
Proof.
  intros Hcode Hitem'. unfold on_response.
  replace ((StatusCode resp =? 200) || (StatusCode resp =? 201)) with true
    by (destruct Hcode as [-> | ->]; reflexivity).
  rewrite Hitem'. reflexivity.
Qed.

(** The log of the pieces [k], [k + 1], ..., [k + j - 1]. *)
Definition pieces_log (k j : nat) : list event :=
  flat_map (fun i => sent_events sessURL (Z.of_nat (i * c)) (Z.of_nat c) file
                       (piece c data i))
           (seq k j).

Lemma uploadChunk_pieces :
  forall j k,
    (k + S j = m)%nat ->
    uploadChunk s (S j) k sessURL (Z.of_nat c) (Z.of_nat (k * c)) (Z.of_nat c)
      file = (pieces_log k (S j), Some (Ok item)).
Proof.
  induction j as [| j IH]; intros k Hk.
  - destruct (@Hitem k ltac:(lia)) as (resp & body & Hdo & Hcode & Hbody & Hdec).
    assert (Hrecv : Receives s k sessURL (Z.of_nat c) (Z.of_nat (k * c))
                      (Z.of_nat c) file (piece c data k) resp body).
    { constructor; [apply piece_Sends; lia | exact Hdo | exact Hbody]. }
    rewrite (uploadChunk_answered 0 Hrecv
               (on_response_completed resp body _ _ Hcode Hdec)).
    reflexivity.
  - destruct (@Hnext k ltac:(lia))
      as (resp & body & session & ranges & Hdo & Hcode & Hbody & Hdec & Hranges).
    assert (Hrecv : Receives s k sessURL (Z.of_nat c) (Z.of_nat (k * c))
                      (Z.of_nat c) file (piece c data k) resp body).
    { constructor; [apply piece_Sends; lia | exact Hdo | exact Hbody]. }
    assert (Hresolves : range_resolves (format_d (Z.of_nat (S k * c)) ++ "-")
                          (Z.of_nat c) (Z.of_nat (S k * c)) (Z.of_nat c)).
    { apply decimal_open_range_resolves.
      unfold U64.in_range, U64.modulus. split; [lia |].
      assert (Z.of_nat (S k * c) < 2 ^ 63) by nia. lia. }
    rewrite (uploadChunk_accepted (S j) Hrecv Hcode Hdec Hranges Hresolves).
    cbv zeta. rewrite (full_piece (k := k)) by lia.
    rewrite (IH (S k)) by lia.
    reflexivity.
Qed.

(** A whole upload (lines 711-793, with the reader of [bytes]). Against a
    server that answers every chunk but the last with 202 and the next
    range [n-] for the offset [n] after that chunk, and the last chunk
    with 200 or 201 and the item, [uploadChunk] returns the item after
    [m] calls; it reads and sends the pieces of the file in order, each
    at its offset, and the bodies it sent are, one after the other, the
    bytes of the file: nothing is left out and nothing sent twice. *)
Theorem upload_covers_file :
  (0 < m)%nat ->
  uploadChunk s m 0 sessURL (Z.of_nat c) 0 (Z.of_nat c) file =
    (pieces_log 0 m, Some (Ok item)) /\
  List.concat (map (piece c data) (seq 0 m)) = data /\
  forall k, (k < m)%nat ->
    Header_Get "Content-Range" (piece_request k) =
      Some ("bytes " ++ format_d (Z.of_nat (k * c)) ++ "-"
              ++ format_d (Z.of_nat (k * c)
                           + Z.of_nat (List.length (piece c data k)) - 1)
              ++ "/" ++ format_d (Size file)).
Proof.
  intros Hpos. split; [| split].
  - pose proof (@uploadChunk_pieces (pred m) 0%nat ltac:(lia)) as Hrun.
    replace (S (pred m)) with m in Hrun by lia. exact Hrun.
  - apply pieces_concat. lia.
  - intros k Hk. unfold piece_request, put_request.
    rewrite lookup_Header_Set. unfold contentRange.
    assert (Hlen : (0 < List.length (piece c data k) <= List.length data - k * c)%nat).
    { rewrite piece_length. nia. }
    rewrite range_end_exact; [reflexivity | | lia |];
      unfold U64.in_range, U64.modulus; nia.
Qed.

End Coverage.

(** ** The other operations on drive items

    The operations of [driveitems.go] besides the chunked upload. They go
    through the client [s.client] of the package (its [NewRequest],
    [NewFileUploadRequest] and [Do] are not in this file and are
    parameters), through the file system and through [filetype.Match]. *)

Module Items.

(** The bodies that the operations hand to [s.client.NewRequest]. *)
Record Facet : Type := { }.

Record ParentReference : Type := {
  ParentReference_Id : string;
  Path : string;
  DriveId : string
}.

Record NewFolderCreationRequest : Type := {
  FolderName : string;
  FolderFacet : Facet;
  NewFolder_ConflictBehavior : string
}.

Record MoveItemRequest : Type := { MoveItem_ParentFolder : ParentReference }.

Record RenameItemRequest : Type := { RenameItem_Name : string }.

Record CopyItemRequest : Type := {
  CopyItem_Name : string;
  CopyItem_ParentFolder : ParentReference
}.

(** The argument [body interface{}] of [NewRequest]; [nil] is [None]. *)
Inductive payload : Type :=
| NewFolder (body : NewFolderCreationRequest)
| MoveItem (body : MoveItemRequest)
| RenameItem (body : RenameItemRequest)
| CopyItem (body : CopyItemRequest).

(** The answers. *)
Record OneDriveDriveItemsResponse : Type := {
  Items_ODataContext : string;
  Count : Z;
  DriveItems : list (option DriveItem)
}.

Record MoveItemResponse : Type := {
  MoveItemResponse_Id : string;
  MoveItemResponse_Name : string;
  MoveItemResponse_ParentFolder : ParentReference
}.

Record RenameItemResponse : Type := {
  RenameItemResponse_Id : string;
  RenameItemResponse_Name : string;
  RenameItemResponse_File : Facet
}.

Record CopyItemResponse : Type := { Location : string }.

(** [Drive] is declared in another file; [Copy] reads its [Id] alone. *)
Record Drive : Type := { Drive_Id : string }.

(** The client [s.client]. [Do(ctx, req, false, &target)] decodes into a
    pointer [target]: without an error the pointer may still be nil, which
    is [inr None]. *)
Record Client : Type := {
  client_NewRequest : string -> string -> option payload -> error + Request;
  NewFileUploadRequest : string -> string -> list byte -> error + Request;
  Do_Items : Request -> error + option OneDriveDriveItemsResponse;
  Do_DriveItem : Request -> error + option DriveItem;
  Do_Move : Request -> error + option MoveItemResponse;
  Do_Rename : Request -> error + option RenameItemResponse;
  Do_Copy : Request -> error + option CopyItemResponse;
  Do_Drive : Request -> error + option Drive
}.

(** [os.FileInfo], as far as it is read. *)
Record FileInfo : Type := {
  IsDir : bool;
  FileInfo_Size : Z;
  FileInfo_Name : string
}.

(** An open [os.File]: [Read len] is [Read(p)] with [len(p) = len] and
    gives the bytes stored in [p]; there are at most [len] of them. *)
Record OSFile : Type := {
  Stat : error + FileInfo;
  Read : Z -> list byte;
  Read_le : forall len, Z.of_nat (List.length (Read len)) <= Z.max 0 len
}.

(** The file system and [filetype.Match], of which the MIME value is
    read. *)
Record System : Type := {
  os_Open : string -> error + OSFile;
  filetype_Match : list byte -> string
}.

Section Operations.

Context {lib : Library}.
Variable c : Client.

(** The lines that end every operation:
    [req, err := s.client.NewRequest(method, apiURL, body)], then
    [err = s.client.Do(ctx, req, false, &target)] and
    [return target, nil], with [return nil, err] after each. *)
Definition send {T : Type} (do : Request -> error + option T)
    (built : error + Request) : list event * outcome T :=
  match built with
  | inl e => ([], Err e)
  | inr req =>
      ([ClientDo req],
       match do req with
       | inl e => Err e
       | inr None => NilNil
       | inr (Some v) => Ok v
       end)
  end.

Definition refuse {T : Type} (msg : string) : list event * outcome T :=
  ([], Err (errorString msg)).

Definition empty (text : string) : bool := String.eqb text EmptyString.

(** The path of an item, lines 319-322, 364-367 and 402-405. *)
Definition item_path (driveId itemId : string) : string :=
  if negb (empty driveId) then
    "me/drives/" ++ PathEscape driveId ++ "/items/" ++ PathEscape itemId
  else "me/drive/items/" ++ PathEscape itemId.

(** [List], lines 148-166. *)
Definition List (folderId : string)
    : list event * outcome OneDriveDriveItemsResponse :=
  let apiURL := "me/drive/items/" ++ PathEscape folderId ++ "/children" in
  let apiURL := if empty folderId then "me/drive/root/children" else apiURL in
  send (Do_Items c) (client_NewRequest c "GET" apiURL None).

(** [Get], lines 191-210. *)
Definition Get (itemId : string) : list event * outcome DriveItem :=
  if empty itemId then refuse "Please provide the Item ID of the item."
  else
    let apiURL := "me/drive/items/" ++ PathEscape itemId in
    send (Do_DriveItem c) (client_NewRequest c "GET" apiURL None).

(** [GetByPath], lines 215-234. *)
Definition GetByPath (itemPath : string) : list event * outcome DriveItem :=
  if empty itemPath then refuse "Please provide the path of the item."
  else
    let apiURL := "me/drive/root:/" ++ PathEscape itemPath in
    send (Do_DriveItem c) (client_NewRequest c "GET" apiURL None).

(** [CreateNewFolder], lines 271-305. *)
Definition CreateNewFolder (driveId parentFolderName folderName : string)
    : list event * outcome DriveItem :=
  if empty folderName then refuse "Please provide the folder name."
  else
    let parentFolderName :=
      if empty parentFolderName then "root" else parentFolderName in
    let apiURL :=
      "me/drive/items/" ++ PathEscape parentFolderName ++ "/children" in
    let apiURL :=
      if negb (empty driveId) then
        "me/drives/" ++ PathEscape driveId ++ "/items/"
          ++ PathEscape parentFolderName ++ "/children"
      else apiURL in
    let newFolder :=
      {| FolderName := folderName;
         FolderFacet := Build_Facet;
         NewFolder_ConflictBehavior := "rename" |} in
    send (Do_DriveItem c)
      (client_NewRequest c "POST" apiURL (Some (NewFolder newFolder))).

(** [Delete], lines 314-336. *)
Definition Delete (driveId itemId : string) : list event * outcome DriveItem :=
  if empty itemId then
    refuse "Please provide the Item ID of the item to be deleted."
  else
    send (Do_DriveItem c)
      (client_NewRequest c "DELETE" (item_path driveId itemId) None).

(** [Move], lines 347-381. *)
Definition Move (driveId itemId destinationParentFolderId : string)
    : list event * outcome MoveItemResponse :=
  if empty itemId then
    refuse "Please provide the Item ID of the item to be moved."
  else if empty destinationParentFolderId then
    refuse
      "Please provide the destination, i.e. the ID of the new parent folder for the item."
  else
    let destinationParentFolder :=
      {| ParentReference_Id := destinationParentFolderId;
         Path := EmptyString; DriveId := EmptyString |} in
    let targetParentFolder :=
      {| MoveItem_ParentFolder := destinationParentFolder |} in
    send (Do_Move c)
      (client_NewRequest c "PATCH" (item_path driveId itemId)
         (Some (MoveItem targetParentFolder))).

(** [Rename], lines 389-419. *)
Definition Rename (driveId itemId newItemName : string)
    : list event * outcome RenameItemResponse :=
  if empty itemId then
    refuse "Please provide the Item ID of the item to be moved."
  else if empty newItemName then
    refuse "Please provide a new name for the item."
  else
    let newNameRequest := {| RenameItem_Name := newItemName |} in
    send (Do_Rename c)
      (client_NewRequest c "PATCH" (item_path driveId itemId)
         (Some (RenameItem newNameRequest))).

(** Lines 456-482 of [Copy], with the destination drive known. *)
Definition copy_to (sourceDriveId itemId destinationDriveId
    destinationFolderId newItemName : string)
    : list event * outcome CopyItemResponse :=
  let destinationParentFolder :=
    {| ParentReference_Id := destinationFolderId;
       Path := EmptyString; DriveId := destinationDriveId |} in
  let copyItemRequest :=
    {| CopyItem_Name := newItemName;
       CopyItem_ParentFolder := destinationParentFolder |} in
  let apiURL := "me/drive/items/" ++ PathEscape itemId ++ "/copy" in
  let apiURL :=
    if negb (empty sourceDriveId) then
      "me/drives/" ++ PathEscape sourceDriveId ++ "/items/"
        ++ PathEscape itemId ++ "/copy"
    else apiURL in
  send (Do_Copy c)
    (client_NewRequest c "POST" apiURL (Some (CopyItem copyItemRequest))).

(** [Copy], lines 427-483. *)
Definition Copy (sourceDriveId itemId destinationDriveId destinationFolderId
    newItemName : string) : list event * outcome CopyItemResponse :=
  if empty itemId then
    refuse "Please provide the Item ID of the item to be copied."
  else if empty destinationFolderId then
    refuse
      "Please provide the destination, i.e. the ID of the new parent folder for the item."
  else if empty newItemName then
    refuse
      "Please provide the name of the new item after the copy is done. OneDrive will reject item name which already exists in destination."
  else if empty destinationDriveId then
    match client_NewRequest c "GET" "me/drive" None with
    | inl e => ([], Err e)
    | inr reqDefaultDriveInfo =>
        match Do_Drive c reqDefaultDriveInfo with
        | inl e => ([ClientDo reqDefaultDriveInfo], Err e)
        | inr None =>
            (* defaultDrive.Id on a nil pointer *)
            ([ClientDo reqDefaultDriveInfo], Panic NilDereference)
        | inr (Some defaultDrive) =>
            let (tr, r) :=
              copy_to sourceDriveId itemId (Drive_Id defaultDrive)
                destinationFolderId newItemName in
            (ClientDo reqDefaultDriveInfo :: tr, r)
        end
    end
  else
    copy_to sourceDriveId itemId destinationDriveId destinationFolderId
      newItemName.

End Operations.

End Items.

(** ** Small uploads and the download *)

Module Transfers.

Import Items.

Record UploadFileFromReaderOpts : Type := {
  Reader_DriveID : string;
  Reader_ConflictBehavior : string
}.

Section Operations.

Context {lib : Library}.
Variable s : DriveItemsService.
Variable c : Client.
Variable sys : System.

(** [strconv.Quote], the verb [%q] of line 896. *)
Variable Quote : string -> string.

(** The limit of 4 MB of lines 520, 584 and 870. *)
Definition limit : Z := 4 * 1024 * 1024.

(** [buffer := make([]byte, fileSize); file.Read(buffer)], lines 531-532
    and 879-880: the bytes that [Read] stored, then the zero bytes of the
    new slice that it left. The result of [Read] is not looked at. *)
Definition read_whole (file : OSFile) (fileSize : Z) : list byte :=
  let p := Read file fileSize in
  (p ++ repeat x00 (Z.to_nat fileSize - List.length p))%list.

(** Lines 503-522 and 853-872: the file is opened and must be a regular
    file of at most 4 MB. *)
Definition open_small {T : Type} (localFilePath : string)
    (k : OSFile -> FileInfo -> list event * outcome T)
    : list event * outcome T :=
  match os_Open sys localFilePath with
  | inl e => ([], Err e)
  | inr file =>
      match Stat file with
      | inl e => ([], Err e)
      | inr fileInfo =>
          if IsDir fileInfo then
            refuse "Only file is allowed to be uploaded here."
          else if limit <? FileInfo_Size fileInfo then
            refuse
              "Only file with size less than or equal to 4MB is allowed to be uploaded here."
          else k file fileInfo
      end
  end.

(** [UploadNewFile], lines 494-549. *)
Definition UploadNewFile (driveId destinationParentFolderId localFilePath
    : string) : list event * outcome DriveItem :=
  if empty destinationParentFolderId then
    refuse
      "Please provide the destination, i.e. the ID of the parent folder for this new item."
  else if empty localFilePath then
    refuse "Please provide the path to the file on local."
  else
    open_small localFilePath (fun file fileInfo =>
      let fileSize := FileInfo_Size fileInfo in
      let fileName := FileInfo_Name fileInfo in
      let apiURL :=
        "me/drive/items/" ++ PathEscape destinationParentFolderId ++ ":/"
          ++ PathEscape fileName
          ++ ":/content?@microsoft.graph.conflictBehavior=rename" in
      let apiURL :=
        if negb (empty driveId) then
          "me/drives/" ++ PathEscape driveId ++ "/items/"
            ++ PathEscape destinationParentFolderId ++ ":/"
            ++ PathEscape fileName
            ++ ":/content?@microsoft.graph.conflictBehavior=rename"
        else apiURL in
      match make (T := DriveItem) fileSize with
      | (_, inr o) => ([], o)
      | (_, inl _) =>
          let buffer := read_whole file fileSize in
          let fileType := filetype_Match sys buffer in
          send (Do_DriveItem c) (NewFileUploadRequest c apiURL fileType buffer)
      end).

(** [UploadFileFromReader], lines 568-606. An [io.Reader] is the bytes it
    yields, [None] when the interface is nil; [io.LimitReader] yields the
    first 4 MB of them. *)
Definition UploadFileFromReader (destinationParentFolderId fileName fileType
    : string) (fileData : option (list byte)) (opts : UploadFileFromReaderOpts)
    : list event * outcome DriveItem :=
  if empty destinationParentFolderId then
    refuse
      "Please provide the destination, i.e. the ID of the parent folder for this new item."
  else
    match fileData with
    | None => refuse "Please provide the file reader."
    | Some data =>
        let dataReader := firstn (Z.to_nat limit) data in
        let apiURL :=
          "me/drive/items/" ++ PathEscape destinationParentFolderId ++ ":/"
            ++ PathEscape fileName ++ ":/content" in
        let apiURL :=
          if negb (empty (Reader_DriveID opts)) then
            "me/drives/" ++ PathEscape (Reader_DriveID opts) ++ "/items/"
              ++ PathEscape destinationParentFolderId ++ ":/"
              ++ PathEscape fileName ++ ":/content"
          else apiURL in
        let apiURL :=
          if negb (empty (Reader_ConflictBehavior opts)) then
            apiURL ++ "?@microsoft.graph.conflictBehavior="
              ++ Reader_ConflictBehavior opts
          else apiURL in
        send (Do_DriveItem c)
          (NewFileUploadRequest c apiURL fileType dataReader)
    end.

(** [json.Unmarshal(body, &errResp)] for a value [var errResp ErrorResponse]
    (line 827): as for the pointer of [uploadChunk], but that the JSON value
    [null] leaves the zero value and not a nil pointer. *)
Definition Unmarshal_ErrorResponse_value (body : string)
    : error + ErrorResponse :=
  match Unmarshal_ErrorResponse body with
  | inl e => inl e
  | inr None => inr {| Error_ := None |}
  | inr (Some response) => inr response
  end.

(** Lines 815-835 of [DownloadItem]: [s.client.client.Get(url)], which
    builds a [GET] request and sends it, and the reading of the answer. *)
Definition fetch (url : string) : list event * outcome string :=
  match NewRequest "GET" url [] with
  | inl e => ([], Err e)
  | inr req =>
      ([HTTPDo req],
       match Do s 0 req with
       | inl e => Err e
       | inr resp =>
           match ResponseBody resp with
           | inl e => Err e
           | inr body =>
               if negb (StatusCode resp =? 200) then
                 match Unmarshal_ErrorResponse_value body with
                 | inl e => Err e
                 | inr errResp =>
                     match Error_ errResp with
                     | None => Err (errorString (Status resp ++ ": " ++ body))
                     | Some e => Err (apiError e)
                     end
                 end
               else Ok body
           end
       end)
  end.

(** [DownloadItem], lines 806-836. The item is a pointer. *)
Definition DownloadItem (item : option DriveItem)
    : list event * outcome string :=
  match item with
  | None => ([], Panic NilDereference)
  | Some item =>
      if empty (DownloadURL item) then
        match Get c (Id item) with
        | (tr, Ok item) =>
            let (tr', r) := fetch (DownloadURL item) in ((tr ++ tr')%list, r)
        | (tr, NilNil) => (tr, Panic NilDereference)
        | (tr, Err e) => (tr, Err e)
        | (tr, Panic p) => (tr, Panic p)
        end
      else fetch (DownloadURL item)
  end.

(** [UploadToReplaceFile], lines 844-911. *)
Definition UploadToReplaceFile (driveId localFilePath itemId : string)
    : list event * outcome DriveItem :=
  if empty localFilePath then
    refuse "Please provide the path to the file on local."
  else if empty itemId then
    refuse "Please provide the id of the existing item to replace."
  else
    open_small localFilePath (fun file fileInfo =>
      let fileSize := FileInfo_Size fileInfo in
      let apiURL := "me/drive/items/" ++ PathEscape itemId ++ "/content" in
      let apiURL :=
        if negb (empty driveId) then
          "me/drives/" ++ PathEscape driveId ++ "/items/"
            ++ PathEscape itemId ++ "/content"
        else apiURL in
      match make (T := DriveItem) fileSize with
      | (_, inr o) => ([], o)
      | (_, inl _) =>
          let buffer := read_whole file fileSize in
          let fileType := filetype_Match sys buffer in
          match Get c itemId with
          | (tr, Err e) => (tr, Err e)
          | (tr, Panic p) => (tr, Panic p)
          | (tr, NilNil) => (tr, Panic NilDereference)
          | (tr, Ok targetDriveItem) =>
              match File targetDriveItem with
              | None =>
                  (tr, Err (errorString
                    "It's prohibited to replace a drive item which is not a file."))
              | Some targetFile =>
                  if negb (String.eqb (MIMEType targetFile) fileType) then
                    (tr, Err (errorString
                      ("It's prohibited to replace a file with MIME Type "
                         ++ Quote (MIMEType targetFile)
                         ++ " which is not the same type as the uploaded file with MEME Type "
                         ++ Quote fileType ++ ".")))
                  else
                    let (tr', r) :=
                      send (Do_DriveItem c)
                        (NewFileUploadRequest c apiURL fileType buffer) in
                    ((tr ++ tr')%list, r)
              end
          end
      end).

End Operations.

End Transfers.

(** ** Properties of the other operations *)

Section OperationProperties.

Context {lib : Library}.
Variable s : DriveItemsService.
Variable c : Items.Client.
Variable sys : Items.System.
Variable Quote : string -> string.

(** The operation returned an error made on the spot and requested
    nothing. *)
Definition refused {T : Type} (run : list event * outcome T) : Prop :=
  fst run = [] /\ exists msg, snd run = Err (errorString msg).

Lemma refuse_refused (T : Type) (msg : string) :
  refused (Items.refuse (T := T) msg).
Proof. split; [reflexivity | exists msg; reflexivity]. Qed.

(** [Get], [GetByPath], [CreateNewFolder] and [Delete] check the one
    argument they need before they build a request (lines 192, 216, 272
    and 315): with an empty item id, path or folder name they return an
    error and have requested nothing, whatever the other arguments. *)
Theorem lookups_need_their_argument :
  refused (Items.Get c EmptyString) /\
  refused (Items.GetByPath c EmptyString) /\
  (forall driveId parent,
     refused (Items.CreateNewFolder c driveId parent EmptyString)) /\
  (forall driveId, refused (Items.Delete c driveId EmptyString)).
Proof.
  repeat match goal with |- _ /\ _ => split end; intros; apply refuse_refused.
Qed.

(** [Move], [Rename] and [Copy] check all the arguments they need before
    they build a request (lines 348-354, 390-396 and 429-439): when the
    item id, the destination or the new name is empty, they return an
    error and have requested nothing; for [Copy] that holds also of the
    request for the default drive. *)
Theorem changes_need_their_arguments :
  (forall driveId itemId destination,
     itemId = EmptyString \/ destination = EmptyString ->
     refused (Items.Move c driveId itemId destination)) /\
  (forall driveId itemId newName,
     itemId = EmptyString \/ newName = EmptyString ->
     refused (Items.Rename c driveId itemId newName)) /\
  (forall sourceDriveId itemId destinationDriveId destination newName,
     itemId = EmptyString \/ destination = EmptyString \/ newName = EmptyString ->
     refused (Items.Copy c sourceDriveId itemId destinationDriveId destination
                newName)).
Proof.
  repeat match goal with |- _ /\ _ => split end.
  - intros driveId itemId destination [-> | ->];
      unfold Items.Move; [apply refuse_refused |].
    destruct (Items.empty itemId); apply refuse_refused.
  - intros driveId itemId newName [-> | ->];
      unfold Items.Rename; [apply refuse_refused |].
    destruct (Items.empty itemId); apply refuse_refused.
  - intros sourceDriveId itemId destinationDriveId destination newName
      [-> | [-> | ->]]; unfold Items.Copy; [apply refuse_refused | |].
    + destruct (Items.empty itemId); apply refuse_refused.
    + destruct (Items.empty itemId); [apply refuse_refused |].
      destruct (Items.empty destination); apply refuse_refused.
Qed.

(** The small uploads check their arguments before they open a file or
    build a request (lines 495-501, 575-581 and 845-851): without a
    destination, a local path, an item id or a reader they return an
    error and have requested nothing. [UploadFileFromReader] does not
    ask for a file name. *)
Theorem uploads_need_their_arguments :
  (forall driveId destination path,
     destination = EmptyString \/ path = EmptyString ->
     refused (Transfers.UploadNewFile c sys driveId destination path)) /\
  (forall driveId path itemId,
     path = EmptyString \/ itemId = EmptyString ->
     refused (Transfers.UploadToReplaceFile c sys Quote driveId path itemId)) /\
  (forall destination name type data opts,
     destination = EmptyString \/ data = None ->
     refused (Transfers.UploadFileFromReader c destination name type data opts)).
Proof.
  repeat match goal with |- _ /\ _ => split end.
  - intros driveId destination path [-> | ->];
      unfold Transfers.UploadNewFile; [apply refuse_refused |].
    destruct (Items.empty destination); apply refuse_refused.
  - intros driveId path itemId [-> | ->];
      unfold Transfers.UploadToReplaceFile; [apply refuse_refused |].
    destruct (Items.empty path); apply refuse_refused.
  - intros destination name type data opts [-> | ->];
      unfold Transfers.UploadFileFromReader; [apply refuse_refused |].
    destruct (Items.empty destination); apply refuse_refused.
Qed.

(** [Copy] without a destination drive (lines 441-454) first asks for the
    default drive. When that request fails, [Copy] returns its error and
    the copy is not requested; when it is answered without a drive,
    reading the id of the nil drive panics; when it gives a drive with an
    id, the run is that request followed by the run of [Copy] to that
    drive. *)
Theorem copy_asks_for_default_drive sourceDriveId itemId destination newName
    reqDefaultDriveInfo :
  itemId <> EmptyString ->
  destination <> EmptyString ->
  newName <> EmptyString ->
  Items.client_NewRequest c "GET" "me/drive" None = inr reqDefaultDriveInfo ->
  match Items.Do_Drive c reqDefaultDriveInfo with
  | inl e =>
      Items.Copy c sourceDriveId itemId EmptyString destination newName =
        ([ClientDo reqDefaultDriveInfo], Err e)
  | inr None =>
      Items.Copy c sourceDriveId itemId EmptyString destination newName =
        ([ClientDo reqDefaultDriveInfo], Panic NilDereference)
  | inr (Some drive) =>
      Items.Drive_Id drive <> EmptyString ->
      Items.Copy c sourceDriveId itemId EmptyString destination newName =
        let there :=
          Items.Copy c sourceDriveId itemId (Items.Drive_Id drive) destination
            newName in
        (ClientDo reqDefaultDriveInfo :: fst there, snd there)
  end.
Proof.
  intros Hitem Hdestination Hname Hreq.
  apply String.eqb_neq in Hitem, Hdestination, Hname.
  unfold Items.Copy, Items.empty.
  rewrite Hitem, Hdestination, Hname, Hreq. simpl.
  destruct (Items.Do_Drive c reqDefaultDriveInfo) as [e | [drive |]];
    try reflexivity.
  intros Hdrive. apply String.eqb_neq in Hdrive. rewrite Hdrive.
  destruct (Items.copy_to c sourceDriveId itemId (Items.Drive_Id drive)
              destination newName).
  reflexivity.
Qed.

(** An empty folder stands for the root (lines 150-152 and 276-278):
    [List] of the empty folder id asks for the children of the root, and
    [CreateNewFolder] under the empty parent does what it does under the
    parent [root]. *)
Theorem empty_folder_is_root :
  Items.List c EmptyString =
    Items.send (Items.Do_Items c)
      (Items.client_NewRequest c "GET" "me/drive/root/children" None) /\
  forall driveId folderName,
    Items.CreateNewFolder c driveId EmptyString folderName =
    Items.CreateNewFolder c driveId "root" folderName.
Proof. split; reflexivity. Qed.

Lemma read_whole_length (file : Items.OSFile) (fileSize : Z) :
  0 <= fileSize ->
  Z.of_nat (List.length (Transfers.read_whole file fileSize)) = fileSize.
Proof.
  intros Hsize. unfold Transfers.read_whole.
  pose proof (Items.Read_le file fileSize) as Hle.
  rewrite length_app, repeat_length. lia.
Qed.

Lemma make_cases (T : Type) (n : Z) :
  (0 <= n /\ make (T := T) n = pure n) \/
  make (T := T) n = halt (Panic MakeSliceLenOutOfRange).
Proof.
  unfold make.
  destruct (Z.leb_spec 0 n); [| right; reflexivity].
  destruct (n <=? maxAlloc); [left; split; [assumption | reflexivity] |].
  right. reflexivity.
Qed.

(** When [UploadNewFile] requests anything (lines 503-548), the path is
    that of a regular file of at most 4 MB, and the body handed to the
    request has exactly the size that [Stat] reported: the bytes that the
    one [Read] stored and, where it stored fewer, zero bytes in place of
    the rest of the file. *)
Theorem small_upload_body driveId destination path :
  fst (Transfers.UploadNewFile c sys driveId destination path) <> [] ->
  exists file info url,
    Items.os_Open sys path = inr file /\
    Items.Stat file = inr info /\
    Items.IsDir info = false /\
    0 <= Items.FileInfo_Size info <= Transfers.limit /\
    let size := Items.FileInfo_Size info in
    let buffer :=
      (Items.Read file size
         ++ repeat x00 (Z.to_nat size - List.length (Items.Read file size)))%list in
    Z.of_nat (List.length buffer) = size /\
    Transfers.UploadNewFile c sys driveId destination path =
      Items.send (Items.Do_DriveItem c)
        (Items.NewFileUploadRequest c url (Items.filetype_Match sys buffer)
           buffer).
Proof.
  unfold Transfers.UploadNewFile, Transfers.open_small. intros Hlog.
  destruct (Items.empty destination); [destruct Hlog; reflexivity |].
  destruct (Items.empty path); [destruct Hlog; reflexivity |].
  destruct (Items.os_Open sys path) as [e | file] eqn:Hopen;
    [destruct Hlog; reflexivity |].
  destruct (Items.Stat file) as [e | info] eqn:Hstat;
    [destruct Hlog; reflexivity |].
  destruct (Items.IsDir info) eqn:Hdir; [destruct Hlog; reflexivity |].
  destruct (Z.ltb_spec Transfers.limit (Items.FileInfo_Size info))
    as [Hbig | Hsmall]; [destruct Hlog; reflexivity |].
  destruct (make_cases DriveItem (Items.FileInfo_Size info))
    as [[Hsize Hmake] | Hmake]; rewrite Hmake in *;
    [| destruct Hlog; reflexivity].
  cbn [pure] in *.
  eexists file, info, _.
  split; [reflexivity |]. split; [exact Hstat |]. split; [exact Hdir |].
  split; [split; assumption |].
  split; [apply (read_whole_length file Hsize) | reflexivity].
Qed.

(** [UploadFileFromReader] sends at most 4 MB (line 584): the body handed
    to the request is the first 4194304 bytes of what the reader yields,
    all of it when there is no more, and no error tells of the rest. *)
Theorem reader_upload_is_cut destination name type data opts :
  destination <> EmptyString ->
  let body := firstn (Z.to_nat Transfers.limit) data in
  exists url,
    Transfers.UploadFileFromReader c destination name type (Some data) opts =
      Items.send (Items.Do_DriveItem c)
        (Items.NewFileUploadRequest c url type body) /\
    Z.of_nat (List.length body) <= 4194304 /\
    (Z.of_nat (List.length data) <= 4194304 -> body = data) /\
    (4194304 < Z.of_nat (List.length data) ->
       Z.of_nat (List.length body) = 4194304).
Proof.
  intros Hdestination body. apply String.eqb_neq in Hdestination.
  unfold Transfers.UploadFileFromReader, Items.empty.
  rewrite Hdestination.
  assert (Hlimit : Transfers.limit = 4194304) by reflexivity.
  eexists. split; [reflexivity |].
  unfold body. rewrite length_firstn, Hlimit.
  split; [lia |]. split; [| lia].
  intros Hall. apply firstn_all2. lia.
Qed.

End OperationProperties.

(** ** The download, and the replacement of a file *)

Section TransferProperties.

Context {lib : Library}.
Variable s : DriveItemsService.
Variable c : Items.Client.
Variable sys : Items.System.
Variable Quote : string -> string.

(** The request of [s.client.client.Get(url)]. *)
Definition get_request (url : string) : Request :=
  {| Method := "GET"; URL := url; Header := []; Body := [] |}.

Lemma fetch_Ok url body :
  snd (Transfers.fetch s url) = Ok body ->
  fst (Transfers.fetch s url) = [HTTPDo (get_request url)] /\
  exists resp,
    Do s 0 (get_request url) = inr resp /\
    StatusCode resp = 200 /\
    ResponseBody resp = inr body.
Proof.
  unfold Transfers.fetch, NewRequest.
  destruct (NewRequest_err "GET" url); [discriminate |].
  fold (get_request url). cbn [fst snd].
  destruct (Do s 0 (get_request url)) as [e | resp] eqn:Hdo; [discriminate |].
  destruct (ResponseBody resp) as [e | body'] eqn:Hbody; [discriminate |].
  destruct (Z.eqb_spec (StatusCode resp) 200) as [Hcode | Hcode]; cbn [negb].
  - intros H. injection H as ->. split; [reflexivity |].
    exists resp. repeat split; assumption.
  - destruct (Transfers.Unmarshal_ErrorResponse_value body') as [e | errResp];
      [discriminate |].
    destruct (Error_ errResp); discriminate.
Qed.

(** One request of [s.client] at most. *)
Lemma send_log (T : Type) (do : Request -> error + option T)
    (built : error + Request) :
  fst (Items.send do built) = [] \/
  exists req, built = inr req /\ fst (Items.send do built) = [ClientDo req].
Proof.
  destruct built as [e | req]; [left; reflexivity |].
  right. exists req. split; reflexivity.
Qed.

(** [DownloadItem] returns bytes only as the body of an answer with status
    200 to a [GET] that it made (lines 815-835): the outcome is never the
    body of another status, nor bytes of its own. *)
Theorem download_is_body_of_200 item body :
  snd (Transfers.DownloadItem s c item) = Ok body ->
  exists url resp,
    In (HTTPDo (get_request url)) (fst (Transfers.DownloadItem s c item)) /\
    Do s 0 (get_request url) = inr resp /\
    StatusCode resp = 200 /\
    ResponseBody resp = inr body.
Proof.
  unfold Transfers.DownloadItem.
  destruct item as [item |]; [| discriminate].
  destruct (Items.empty (DownloadURL item)).
  - destruct (Items.Get c (Id item)) as [tr [item' | e | | p]];
      try discriminate.
    destruct (Transfers.fetch s (DownloadURL item')) as [tr' r] eqn:Hfetch.
    cbn [fst snd]. intros ->.
    destruct (@fetch_Ok (DownloadURL item') body) as [Hlog (resp & Hresp)];
      [rewrite Hfetch; reflexivity |].
    rewrite Hfetch in Hlog. cbn [fst] in Hlog. subst tr'.
    exists (DownloadURL item'), resp. split; [| exact Hresp].
    apply in_or_app. right. left. reflexivity.
  - intros Hok. destruct (fetch_Ok _ Hok) as [Hlog (resp & Hresp)].
    exists (DownloadURL item), resp. split; [| exact Hresp].
    rewrite Hlog. left. reflexivity.
Qed.

(** An item without a download URL is looked up again by its id (lines
    807-813). When [Get] fails, so does [DownloadItem], and nothing is
    fetched; when [Get] gives no item and no error, the read of the nil
    item panics; when [Get] gives an item that has a download URL, the
    run is the run of [Get] followed by the download of that item. *)
Theorem download_looks_item_up item :
  DownloadURL item = EmptyString ->
  match Items.Get c (Id item) with
  | (tr, Err e) => Transfers.DownloadItem s c (Some item) = (tr, Err e)
  | (tr, NilNil) =>
      Transfers.DownloadItem s c (Some item) = (tr, Panic NilDereference)
  | (tr, Ok found) =>
      DownloadURL found <> EmptyString ->
      Transfers.DownloadItem s c (Some item) =
        let there := Transfers.DownloadItem s c (Some found) in
        ((tr ++ fst there)%list, snd there)
  | (tr, Panic p) => Transfers.DownloadItem s c (Some item) = (tr, Panic p)
  end.
Proof.
  intros Hurl.
  assert (Hhere : Transfers.DownloadItem s c (Some item) =
            match Items.Get c (Id item) with
            | (tr, Ok found) =>
                let (tr', r) := Transfers.fetch s (DownloadURL found) in
                ((tr ++ tr')%list, r)
            | (tr, NilNil) => (tr, Panic NilDereference)
            | (tr, Err e) => (tr, Err e)
            | (tr, Panic p) => (tr, Panic p)
            end).
  { unfold Transfers.DownloadItem, Items.empty. rewrite Hurl. reflexivity. }
  rewrite Hhere.
  destruct (Items.Get c (Id item)) as [tr [found | e | | p]]; try reflexivity.
  intros Hfound. apply String.eqb_neq in Hfound.
  unfold Transfers.DownloadItem, Items.empty. rewrite Hfound.
  destruct (Transfers.fetch s (DownloadURL found)). reflexivity.
Qed.

(** The same answer in the download and in the chunked upload (lines
    825-833 against lines 794-802). For a status that is none of 200, 201
    and 202 and a body that is the JSON value [null], [DownloadItem],
    which decodes into a value, returns the error with the status line
    and the body; [uploadChunk], which decodes into a pointer and reads
    through it, panics. *)
Theorem null_body_in_download_and_upload item resp body fuel sent sessURL
    buffer offset length file p :
  DownloadURL item <> EmptyString ->
  NewRequest_err "GET" (DownloadURL item) = None ->
  Do s 0 (get_request (DownloadURL item)) = inr resp ->
  Receives s sent sessURL buffer offset length file p resp body ->
  StatusCode resp <> 200 -> StatusCode resp <> 201 -> StatusCode resp <> 202 ->
  Unmarshal_ErrorResponse body = inr None ->
  snd (Transfers.DownloadItem s c (Some item)) =
    Err (errorString (Status resp ++ ": " ++ body)) /\
  snd (uploadChunk s (S fuel) sent sessURL buffer offset length file) =
    Some (Panic NilDereference).
Proof.
  intros Hurl Hreq Hdo Hrecv H200 H201 H202 Hnull. split.
  - apply String.eqb_neq in Hurl.
    unfold Transfers.DownloadItem, Items.empty. rewrite Hurl.
    unfold Transfers.fetch, NewRequest. rewrite Hreq.
    fold (get_request (DownloadURL item)). rewrite Hdo.
    rewrite (receives_body Hrecv). cbn [snd].
    apply Z.eqb_neq in H200. rewrite H200. cbn [negb].
    unfold Transfers.Unmarshal_ErrorResponse_value. rewrite Hnull.
    reflexivity.
  - rewrite (null_error_body_panics fuel Hrecv H200 H201 H202 Hnull).
    reflexivity.
Qed.

(** [UploadToReplaceFile] uploads only over a file of the same type
    (lines 885-897). When its log holds two requests, the first is the
    [Get] of the item, which gave an item that is a file whose MIME type
    is the type matched on the bytes of the local file; the local file is
    a regular file of at most 4 MB; and nothing follows the upload. *)
Theorem replacement_needs_same_type driveId path itemId first second rest :
  fst (Transfers.UploadToReplaceFile c sys Quote driveId path itemId) =
    (first :: second :: rest)%list ->
  exists file info target targetFile,
    Items.os_Open sys path = inr file /\
    Items.Stat file = inr info /\
    Items.IsDir info = false /\
    Items.FileInfo_Size info <= Transfers.limit /\
    Items.Get c itemId = ([first], Ok target) /\
    File target = Some targetFile /\
    MIMEType targetFile =
      Items.filetype_Match sys
        (Transfers.read_whole file (Items.FileInfo_Size info)) /\
    rest = [].
Proof.
  unfold Transfers.UploadToReplaceFile, Transfers.open_small. intros Hlog.
  destruct (Items.empty path); [discriminate |].
  destruct (Items.empty itemId) eqn:Hitem; [discriminate |].
  destruct (Items.os_Open sys path) as [e | file] eqn:Hopen; [discriminate |].
  destruct (Items.Stat file) as [e | info] eqn:Hstat; [discriminate |].
  destruct (Items.IsDir info) eqn:Hdir; [discriminate |].
  destruct (Z.ltb_spec Transfers.limit (Items.FileInfo_Size info))
    as [Hbig | Hsmall]; [discriminate |].
  destruct (make_cases DriveItem (Items.FileInfo_Size info))
    as [[Hsize Hmake] | Hmake]; rewrite Hmake in Hlog; [| discriminate].
  cbn [pure] in Hlog.
  assert (Hget : fst (Items.Get c itemId) = [] \/
                 exists req, fst (Items.Get c itemId) = [ClientDo req]).
  { unfold Items.Get. rewrite Hitem.
    destruct (send_log (Items.Do_DriveItem c)
                (Items.client_NewRequest c "GET"
                   ("me/drive/items/" ++ PathEscape itemId) None))
      as [Hnone | (req & _ & Hone)]; [left | right; exists req]; assumption. }
  destruct (Items.Get c itemId) as [tr [target | e | | p]];
    cbn [fst] in Hget;
    try (destruct Hget as [-> | [req ->]]; discriminate).
  destruct (File target) as [targetFile |] eqn:Hfile;
    [| destruct Hget as [-> | [req ->]]; discriminate].
  destruct (String.eqb_spec (MIMEType targetFile)
              (Items.filetype_Match sys
                 (Transfers.read_whole file (Items.FileInfo_Size info))))
    as [Htype | Htype]; cbn [negb] in Hlog;
    [| destruct Hget as [-> | [req ->]]; discriminate].
  exists file, info, target, targetFile.
  destruct (send_log (Items.Do_DriveItem c)
              (Items.NewFileUploadRequest c
                 (if negb (Items.empty driveId)
                  then "me/drives/" ++ PathEscape driveId ++ "/items/"
                         ++ PathEscape itemId ++ "/content"
                  else "me/drive/items/" ++ PathEscape itemId ++ "/content")
                 (Items.filetype_Match sys
                    (Transfers.read_whole file (Items.FileInfo_Size info)))
                 (Transfers.read_whole file (Items.FileInfo_Size info))))
    as [Hnone | (req' & _ & Hone)];
    destruct (Items.send _ _) as [tr' r]; cbn [fst] in *; subst tr';
    destruct Hget as [-> | [req ->]]; try discriminate.
  injection Hlog as <- _ <-.
  repeat split; assumption || reflexivity.
Qed.

End TransferProperties.

(** ** The entries that resolve *)

Fixpoint all_digits (text : string) : bool :=
  match text with
  | EmptyString => true
  | String c rest => is_digit c && all_digits rest
  end.

Lemma ParseUint_loop_all_digits (text : string) :
  forall acc n, ParseUint_loop text acc = inr n -> all_digits text = true.
Proof.
  induction text as [| c rest IH]; intros acc n H; [reflexivity |].
  simpl in *. destruct (is_digit c); [| discriminate].
  destruct (cutoff <=? acc); [discriminate |].
  destruct ((U64.add (U64.mul acc 10) (digit_value c) <? U64.mul acc 10)
            || (U64.max <? U64.add (U64.mul acc 10) (digit_value c)));
    [discriminate |].
  exact (IH _ _ H).
Qed.

(** A text that [ParseUint] accepts is a run of decimal digits that is not
    empty. *)
Definition decimal (text : string) : Prop :=
  text <> EmptyString /\ all_digits text = true.

Lemma ParseUint_decimal (text : string) (n : Z) :
  ParseUint text = inr n -> decimal text.
Proof.
  unfold ParseUint. destruct text as [| c rest]; [discriminate |].
  destruct (ParseUint_loop (String c rest) 0) as [kind | m] eqn:Hloop;
    [discriminate |].
  intros _. split; [discriminate | exact (ParseUint_loop_all_digits _ _ Hloop)].
Qed.

Lemma Split_at_dash (first rest : string) :
  contains first dash = false ->
  Split (first ++ String dash rest) dash = first :: Split rest dash.
Proof.
  induction first as [| c first' IH]; intros Hdash; [reflexivity |].
  simpl in Hdash. apply orb_false_iff in Hdash. destruct Hdash as [Hc Hrest].
  simpl. rewrite Hc, (IH Hrest). reflexivity.
Qed.

(** What [%d] prints of an offset, [ParseUint] reads back (lines 741-745
    against lines 778-790): for every [uint64] [n], the text of [n] parses
    to [n], and the entry made of that text and ['-'] resolves to the
    offset [n] with the length of the chunk before. *)
Theorem printed_offsets_are_read_back (n length : Z) :
  U64.in_range n ->
  ParseUint (format_d n) = inr n /\
  range_resolves (format_d n ++ "-") length n length.
Proof.
  intros Hn. split;
    [exact (ParseUint_format_d Hn) | exact (decimal_open_range_resolves length Hn)].
Qed.

(** The tail call of line 793 is made only for an entry that starts with a
    run of decimal digits and a ['-'] (lines 778-790): the first fragment
    is such a run and gives the offset, a [uint64]; the second fragment is
    empty, and the length stays, or it is such a run and gives the length,
    a [uint64]. A sign, a blank or an empty start is refused. *)
Theorem resolved_ranges_are_decimal (entry : string)
    (length nextOffset nextLength : Z) :
  range_resolves entry length nextOffset nextLength ->
  exists start end_ frags,
    Split entry dash = start :: end_ :: frags /\
    decimal start /\
    U64.in_range nextOffset /\
    ((end_ = EmptyString /\ nextLength = length) \/
     (decimal end_ /\ U64.in_range nextLength)).
Proof.
  intros (start & end_ & frags & Hsplit & Hstart & Hend).
  exists start, end_, frags.
  split; [exact Hsplit |].
  split; [exact (ParseUint_decimal _ Hstart) |].
  split; [exact (ParseUint_in_range _ Hstart) |].
  destruct (String.eqb_spec end_ EmptyString) as [Hempty | Hfull].
  - left. split; assumption.
  - right. split;
      [exact (ParseUint_decimal _ Hend) | exact (ParseUint_in_range _ Hend)].
Qed.

(** Only the first two fragments of an entry count (line 779): what
    follows a second ['-'] changes nothing. *)
Theorem further_fragments_are_ignored (start end_ more : string)
    (length nextOffset nextLength : Z) :
  contains start dash = false ->
  contains end_ dash = false ->
  range_resolves (start ++ "-" ++ end_ ++ "-" ++ more) length nextOffset
    nextLength <->
  range_resolves (start ++ "-" ++ end_) length nextOffset nextLength.
Proof.
  intros Hstart Hend.
  assert (Hlong : Split (start ++ "-" ++ end_ ++ "-" ++ more) dash =
                  start :: end_ :: Split more dash).
  { change (start ++ "-" ++ end_ ++ "-" ++ more)
      with (start ++ String dash (end_ ++ String dash more)).
    rewrite (@Split_at_dash start _ Hstart), (@Split_at_dash end_ _ Hend).
    reflexivity. }
  assert (Hshort : Split (start ++ "-" ++ end_) dash = [start; end_]).
  { change (start ++ "-" ++ end_) with (start ++ String dash end_).
    rewrite (@Split_at_dash start _ Hstart), (Split_without_sep _ _ Hend).
    reflexivity. }
  unfold range_resolves. rewrite Hlong, Hshort.
  split; intros (a & b & frags & Hsplit & Hrest); injection Hsplit as -> -> _;
    eexists _, _, _; (split; [reflexivity | exact Hrest]).
Qed.

(** ** The session of an upload *)

Section Session.

Context {lib : Library}.
Variable s : DriveItemsService.

(** The run of [UploadLargeFile] after the session request [post] was
    answered with [session]. *)
Lemma UploadLargeFile_with_session fuel destinationParentFolderId file opts
    post session :
  hd_error (fst (UploadLargeFile s fuel destinationParentFolderId file opts))
    = Some (ClientDo post) ->
  client_Do s post = inr session ->
  exists data,
    Data file = Some data /\
    UploadLargeFile s fuel destinationParentFolderId file opts =
      let chunkSize :=
        if negb (ChunkSize opts =? 0) then ChunkSize opts else 4 * 1024 * 1024 in
      match make (T := DriveItem) chunkSize with
      | (_, inr o) => ((ClientDo post :: cancel s 0 session)%list, Some o)
      | (_, inl buffer) =>
          let (tr, r) :=
            uploadChunk s fuel 0 (UploadUrl session) buffer 0 chunkSize file in
          match r with
          | None => ((ClientDo post :: tr)%list, None)
          | Some o =>
              ((ClientDo post :: tr ++ cancel s (count_HTTPDo tr) session)%list,
               Some o)
          end
      end.
Proof.
  unfold UploadLargeFile. intros Hhead Hclient.
  destruct (String.eqb destinationParentFolderId EmptyString); [discriminate |].
  destruct (String.eqb (LargeFile_Name file) EmptyString); [discriminate |].
  destruct (Size file =? 0); [discriminate |].
  destruct (Data file) as [data |]; [| discriminate].
  exists data. split; [reflexivity |].
  destruct (BaseURL_Parse s _) as [e | apiUrl]; [discriminate |].
  destruct (NewRequest "POST" apiUrl []) as [e | post']; [discriminate |].
  destruct (client_Do s (Header_Set "Content-Type" "application/json" post'))
    as [e | session'] eqn:Hdo.
  { simpl in Hhead. injection Hhead as <-.
    rewrite Hdo in Hclient. discriminate. }
  assert (Hpost : Header_Set "Content-Type" "application/json" post' = post).
  { destruct (make _) as [tr0 [buffer | o]].
    - destruct (uploadChunk s fuel 0 (UploadUrl session') buffer 0 _ file)
        as [tr [o |]]; simpl in Hhead; injection Hhead as <-; reflexivity.
    - simpl in Hhead. injection Hhead as <-. reflexivity. }
  rewrite Hpost in *. rewrite Hclient in Hdo. injection Hdo as <-.
  reflexivity.
Qed.

(** Every raw request of [UploadLargeFile] goes to the upload URL of the
    session that was created (lines 689-708): the chunks as [PUT], and
    the cancellation as [DELETE]; the bytes of the file are sent nowhere
    else. *)
Theorem requests_go_to_session fuel destinationParentFolderId file opts post
    session req :
  hd_error (fst (UploadLargeFile s fuel destinationParentFolderId file opts))
    = Some (ClientDo post) ->
  client_Do s post = inr session ->
  In (HTTPDo req)
     (fst (UploadLargeFile s fuel destinationParentFolderId file opts)) ->
  URL req = UploadUrl session /\
  (chunk_request (UploadUrl session) file req \/
   req = delete_request session).
Proof.
  intros Hhead Hclient Hin.
  destruct (UploadLargeFile_with_session _ _ _ _ Hhead Hclient)
    as (data & _ & Hrun).
  rewrite Hrun in Hin. clear Hrun Hhead. cbv zeta in Hin.
  assert (Hcancel : forall sent,
            In (HTTPDo req) (cancel s sent session) ->
            req = delete_request session).
  { intros sent. rewrite cancel_events.
    destruct (NewRequest_err "DELETE" (UploadUrl session)); [contradiction |].
    intros [H | []]. injection H as <-. reflexivity. }
  assert (Hdone : req = delete_request session ->
            URL req = UploadUrl session /\
            (chunk_request (UploadUrl session) file req \/
             req = delete_request session)).
  { intros ->. split; [reflexivity | right; reflexivity]. }
  destruct (make _) as [tr0 [buffer | o]].
  - destruct (uploadChunk s fuel 0 (UploadUrl session) buffer 0 _ file)
      as [tr r] eqn:Hchunks.
    assert (Hput : In (HTTPDo req) tr ->
              URL req = UploadUrl session /\
              (chunk_request (UploadUrl session) file req \/
               req = delete_request session)).
    { intros Htr.
      assert (Hreq : chunk_request (UploadUrl session) file req).
      { eapply chunk_requests_of_uploadChunk. rewrite Hchunks. exact Htr. }
      split; [exact (proj1 (proj2 Hreq)) | left; exact Hreq]. }
    destruct r as [o |]; cbn [fst] in Hin.
    + destruct Hin as [Hin | Hin]; [discriminate |].
      apply in_app_or in Hin. destruct Hin as [Hin | Hin];
        [exact (Hput Hin) | exact (Hdone (Hcancel _ Hin))].
    + destruct Hin as [Hin | Hin]; [discriminate | exact (Hput Hin)].
  - cbn [fst] in Hin. destruct Hin as [Hin | Hin];
      [discriminate | exact (Hdone (Hcancel _ Hin))].
Qed.

(** The first chunk (lines 703-708): after the session was created, the
    file is first read at offset 0 for [opts.ChunkSize] bytes, or for
    4 MiB when that is 0. *)
Theorem first_read_is_chunk_size fuel destinationParentFolderId file opts post
    session :
  hd_error (fst (UploadLargeFile s (S fuel) destinationParentFolderId file opts))
    = Some (ClientDo post) ->
  client_Do s post = inr session ->
  let chunkSize := if ChunkSize opts =? 0 then 4194304 else ChunkSize opts in
  0 <= chunkSize <= maxAlloc ->
  nth_error (fst (UploadLargeFile s (S fuel) destinationParentFolderId file opts))
    1 = Some (ReadAtCall chunkSize 0).
Proof.
  intros Hhead Hclient chunkSize Hsize.
  destruct (UploadLargeFile_with_session _ _ _ _ Hhead Hclient)
    as (data & Hdata & Hrun).
  rewrite Hrun. clear Hrun Hhead. cbv zeta.
  replace (if negb (ChunkSize opts =? 0) then ChunkSize opts else 4 * 1024 * 1024)
    with chunkSize by (unfold chunkSize; destruct (ChunkSize opts =? 0); reflexivity).
  unfold make.
  destruct Hsize as [Hlow Hhigh].
  apply Z.leb_le in Hlow, Hhigh. rewrite Hlow, Hhigh. cbn [andb pure].
  assert (Hfirst : exists rest r,
            uploadChunk s (S fuel) 0 (UploadUrl session) chunkSize 0 chunkSize file
              = ((ReadAtCall chunkSize 0 :: rest)%list, r)).
  { cbn [uploadChunk]. unfold uploadChunk_body.
    rewrite Z.ltb_irrefl, Hdata. cbn [pure bind emit app].
    destruct (ReadAt data chunkSize (U64.to_int64 0)) as [p err].
    match goal with
    | |- context [bind ?m ?k] => destruct (bind m k) as [tr [[[b o] l] | o]]
    end.
    - destruct (uploadChunk s fuel 1 (UploadUrl session) b o l file) as [tr' r'].
      eexists _, _. reflexivity.
    - eexists _, _. reflexivity. }
  destruct Hfirst as (rest & r & ->).
  destruct r; reflexivity.
Qed.

End Session.

(** ** Runs on the sample collaborators *)

#[local] Existing Instance Sample.library.

(** Discharges [Receives] (and [Sends], [Reads]) on closed sample data. *)
Ltac sample_reads :=
  constructor;
  [ first [ left; vm_compute; discriminate | right; vm_compute; split; discriminate ]
  | eexists; split; [reflexivity | vm_compute; reflexivity] ].

Ltac sample_sends :=
  constructor; [eexists; sample_reads | discriminate | reflexivity].

Ltac sample_receives :=
  constructor; [sample_sends | reflexivity | reflexivity].

(** *** Claim C1: the length after a range with an end *)

(** Claim C1, on the code. After a first chunk of 1048576 bytes of a file
    of 3145728 bytes, the server answers 202 with the next expected range
    [1048576-2097151]. The entry resolves to the offset 1048576 and to the
    length 2097151, the end of the range, where the claim has
    [2097151 - 1048576 + 1 = 1048576]; the next call reads 2097151 bytes
    and sends them as [bytes 1048576-3145726]. An entry without an end,
    [1048576-], resolves to the length of the chunk before. *)
Theorem range_end_becomes_length :
  range_resolves "1048576-2097151" 1048576 1048576 2097151 /\
  2097151 <> 2097151 - 1048576 + 1 /\
  map Sample.summarize
    (fst (UploadLargeFile
            (Sample.service
               (Sample.script [Sample.accepted ["1048576-2097151"];
                               Sample.created]))
            2 "root" (Sample.file 3145728) (Sample.opts 1048576))) =
    [ Sample.Sent "POST" None;
      Sample.Read 1048576 0;
      Sample.Sent "PUT" (Some "bytes 0-1048575/3145728");
      Sample.Read 2097151 1048576;
      Sample.Sent "PUT" (Some "bytes 1048576-3145726/3145728");
      Sample.Sent "DELETE" None ] /\
  range_resolves "1048576-" 1048576 1048576 1048576.
Proof.
  split; [| split; [| split]].
  - exists "1048576", "2097151", []. vm_compute. auto.
  - lia.
  - vm_compute. reflexivity.
  - exists "1048576", EmptyString, []. vm_compute. auto.
Qed.

(** *** Claim C2: chunks and the size of the file *)

(** Claim C2 fails on the code. A file of 10 bytes is sent in chunks of 4;
    the server names the next ranges [4-] and [8-]. The third call is made
    with offset 8 and length 4, resolved from the entry [8-], and
    [8 + 4 > 10]. *)
Lemma last_chunk_exceeds_size :
  range_resolves "8-" 4 8 4 /\
  In (ReadAtCall 4 8)
     (fst (UploadLargeFile
             (Sample.service
                (Sample.script [Sample.accepted ["4-"]; Sample.accepted ["8-"];
                                Sample.created]))
             3 "root" (Sample.file 10) (Sample.opts 4))) /\
  ~ (8 + 4 <= Size (Sample.file 10)).
Proof.
  split; [| split].
  - exists "8", EmptyString, []. vm_compute. auto.
  - vm_compute. do 5 right. left. reflexivity.
  - vm_compute. intros H. apply H. reflexivity.
Qed.

Lemma sent_chunks_within_file_witness :
  within_file (Sample.file 10)
    (put_request Sample.uploadUrl (Sample.zeros 2) 8 10).
Proof.
  apply (@sent_chunks_within_file Sample.library
           (Sample.service
              (Sample.script [Sample.accepted ["4-"]; Sample.accepted ["8-"];
                              Sample.created]))
           3 "root" (Sample.file 10) (Sample.opts 4) (Sample.zeros 10)).
  - reflexivity.
  - reflexivity.
  - vm_compute. split; [discriminate | reflexivity].
  - vm_compute. do 6 right. left. reflexivity.
  - reflexivity.
Defined.

(** *** Claim C3: a body that is no JSON text *)

(** Claim C3 fails on the code. The response [502 Bad Gateway] carries the
    page of a gateway; the decoder refuses it, and [uploadChunk] returns
    the decoder's error, not an error with the status line and the body. *)
Lemma gateway_page_is_not_reported :
  Unmarshal_ErrorResponse Sample.html =
    inl (jsonError "invalid character looking for beginning of value") /\
  snd (uploadChunk
         (Sample.service
            (Sample.script [inr (Sample.response 502 "502 Bad Gateway"
                                   Sample.html)]))
         1 0 Sample.uploadUrl 10 0 10 (Sample.file 40)) <>
    Some (Err (errorString "502 Bad Gateway: <html>Bad Gateway</html>")).
Proof.
  split; [reflexivity |]. vm_compute. discriminate.
Qed.

Lemma other_status_fails_witness :
  uploadChunk
    (Sample.service
       (Sample.script [inr (Sample.response 500 "500 Internal Server Error" "{}")]))
    1 0 Sample.uploadUrl 10 0 10 (Sample.file 40) =
  (sent_events Sample.uploadUrl 0 10 (Sample.file 40) (Sample.zeros 10),
   Some (Err (errorString "500 Internal Server Error: {}"))).
Proof.
  refine (proj1 (proj2
    (@other_status_fails Sample.library _ 0 0 Sample.uploadUrl 10 0 10
       (Sample.file 40) (Sample.zeros 10)
       (Sample.response 500 "500 Internal Server Error" "{}") "{}"
       _ _ _ _)) {| Error_ := None |} _ _).
  - sample_receives.
  - discriminate.
  - discriminate.
  - discriminate.
  - reflexivity.
  - reflexivity.
Defined.

(** *** Claim C4: a server that repeats an offset *)

(** The server answers every chunk with 202 and the next range [0-]. *)
Definition repeating : DriveItemsService :=
  Sample.service (fun _ => Sample.accepted ["0-"]).

Lemma repeating_goes_on (sent : nat) :
  uploadChunk_body repeating sent Sample.uploadUrl 10 0 10 (Sample.file 40) =
    (sent_events Sample.uploadUrl 0 10 (Sample.file 40) (Sample.zeros 10),
     inl (10, 0, 10)).
Proof. vm_compute. reflexivity. Qed.

Lemma repeating_has_no_outcome (fuel : nat) :
  forall sent,
    snd (uploadChunk repeating fuel sent Sample.uploadUrl 10 0 10
           (Sample.file 40)) = None /\
    count_HTTPDo
      (fst (uploadChunk repeating fuel sent Sample.uploadUrl 10 0 10
              (Sample.file 40))) = fuel.
Proof.
  induction fuel as [| fuel IH]; intros sent; [split; reflexivity |].
  rewrite (uploadChunk_recurses repeating fuel sent Sample.uploadUrl 10 0 10
             (Sample.file 40) (repeating_goes_on sent)).
  destruct (IH (S sent)) as [Hnone Hcount].
  split; [exact Hnone |].
  cbn [fst]. unfold count_HTTPDo in *.
  rewrite filter_app, length_app, Hcount. reflexivity.
Qed.

(** Claim C4 fails on the code. When the server repeats the offset 0, no
    amount of fuel brings the calls of [uploadChunk] to an outcome, be it
    an error: every call sends its chunk and calls again. *)
Lemma repeated_offset_never_ends :
  ~ (exists fuel o,
       snd (uploadChunk repeating fuel 0 Sample.uploadUrl 10 0 10
              (Sample.file 40)) = Some o).
Proof.
  intros (fuel & o & H).
  rewrite (proj1 (repeating_has_no_outcome fuel 0)) in H. discriminate.
Qed.

(** The upload of 10 bytes in chunks of 4 with the next ranges [4-] and
    [8-]. *)
Definition three_chunks : DriveItemsService :=
  Sample.service
    (Sample.script [Sample.accepted ["4-"]; Sample.accepted ["8-"];
                    Sample.created]).

Lemma three_chunks_reaches sent buffer offset length :
  reaches three_chunks Sample.uploadUrl (Sample.file 10) 0 4 0 4
    sent buffer offset length ->
  (sent, buffer, offset, length) = (0%nat, 4, 0, 4) \/
  (sent, buffer, offset, length) = (1%nat, 4, 4, 4) \/
  (sent, buffer, offset, length) = (2%nat, 4, 8, 4).
Proof.
  induction 1 as [| sent buffer offset length tr buffer' nextOffset nextLength
                    Hreach IH Hbody]; [left; reflexivity |].
  destruct IH as [IH | [IH | IH]]; injection IH as -> -> -> ->;
    vm_compute in Hbody.
  - injection Hbody as _ <- <- <-. right. left. reflexivity.
  - injection Hbody as _ <- <- <-. right. right. reflexivity.
  - discriminate Hbody.
Qed.

Lemma three_chunks_advancing :
  advancing three_chunks Sample.uploadUrl (Sample.file 10) 0 4 0 4.
Proof.
  intros sent buffer offset length tr buffer' nextOffset nextLength Hreach Hbody.
  destruct (three_chunks_reaches Hreach) as [H | [H | H]];
    injection H as -> -> -> ->; vm_compute in Hbody.
  - injection Hbody as _ _ <- _. reflexivity.
  - injection Hbody as _ _ <- _. reflexivity.
  - discriminate Hbody.
Qed.

Lemma advancing_upload_terminates_witness :
  exists o,
    snd (uploadChunk three_chunks (S (Z.to_nat (10 - 0))) 0 Sample.uploadUrl
           4 0 4 (Sample.file 10)) = Some o.
Proof.
  apply (@advancing_upload_terminates Sample.library three_chunks
           Sample.uploadUrl (Sample.file 10) 10 0 4 0 4).
  - exact (@bytesReader_finite "report.bin" 10 (Sample.zeros 10)).
  - vm_compute. split; [discriminate | reflexivity].
  - exact three_chunks_advancing.
Defined.

(** *** Witnesses of the claims about one chunk *)

Lemma empty_next_ranges_fail_witness :
  uploadChunk (Sample.service (Sample.script [Sample.accepted []])) 1 0
    Sample.uploadUrl 10 0 10 (Sample.file 40) =
  (sent_events Sample.uploadUrl 0 10 (Sample.file 40) (Sample.zeros 10),
   Some (Err empty_ranges_error)).
Proof.
  apply (@empty_next_ranges_fail Sample.library _ 0 0 Sample.uploadUrl 10 0 10
           (Sample.file 40) (Sample.zeros 10)
           (Sample.response 202 "202 Accepted" (Sample.session_json []))
           (Sample.session_json []) (Sample.session [])).
  - sample_receives.
  - reflexivity.
  - reflexivity.
  - reflexivity.
Defined.

Lemma zeros_length (size : Z) :
  Z.of_nat (List.length (Sample.zeros size)) = Z.max 0 size.
Proof. unfold Sample.zeros. rewrite repeat_length. lia. Qed.

(** A read at the start of a source that is shorter than the slice. *)
Lemma bytesReader_short_read (data : list byte) (len : Z) :
  data <> [] ->
  Z.of_nat (List.length data) < len ->
  bytesReader_ReadAt data len 0 = (data, Some io_EOF).
Proof.
  intros Hdata Hshort. unfold bytesReader_ReadAt.
  destruct (Z.leb_spec (Z.of_nat (List.length data)) 0) as [Hnone | Hsome].
  { destruct data; [contradiction | simpl List.length in Hnone; lia]. }
  simpl. rewrite firstn_all2 by lia.
  apply Z.ltb_lt in Hshort. rewrite Hshort. reflexivity.
Qed.

Lemma half_megabyte_Sends :
  Sends Sample.uploadUrl 1048576 0 1048576 (Sample.file 500000)
    (Sample.zeros 500000).
Proof.
  assert (Hlength := zeros_length 500000).
  constructor.
  - exists (Some io_EOF). constructor; [left; lia |].
    exists (bytesReader (Sample.zeros 500000)). split; [reflexivity |].
    apply bytesReader_short_read; [| lia].
    intros Hnil. rewrite Hnil in Hlength. simpl in Hlength. lia.
  - intros Hnil. rewrite Hnil in Hlength. simpl in Hlength. lia.
  - reflexivity.
Qed.

(** 500000 bytes are read where 1048576 were asked for at offset 0. *)
Lemma content_range_counts_bytes_read_witness :
  exists req rest,
    fst (uploadChunk (Sample.service (Sample.script [Sample.created])) 1 0
           Sample.uploadUrl 1048576 0 1048576 (Sample.file 500000)) =
      (ReadAtCall 1048576 (U64.to_int64 0) :: HTTPDo req :: rest)%list /\
    Header_Get "Content-Range" req = Some "bytes 0-499999/500000".
Proof.
  destruct (@content_range_counts_bytes_read Sample.library
              (Sample.service (Sample.script [Sample.created])) 0 0
              Sample.uploadUrl 1048576 0 1048576 (Sample.file 500000)
              (Sample.zeros 500000) half_megabyte_Sends)
    as (req & rest & Hlog & Hheader).
  - vm_compute. split; [discriminate | reflexivity].
  - rewrite zeros_length. vm_compute. discriminate.
  - exists req, rest. split; [exact Hlog |].
    rewrite Hheader, zeros_length. reflexivity.
Defined.

(** Of a file of 10 bytes, 4 are asked for at offset 10, where nothing is
    left, and at offset 8, where 2 are left. *)
Lemma short_read_handling_witness :
  uploadChunk three_chunks 1 0 Sample.uploadUrl 4 10 4 (Sample.file 10) =
    ([ReadAtCall 4 (U64.to_int64 10)],
     Some (Err (errorString "unexpected EOF"))) /\
  exists req rest,
    fst (uploadChunk three_chunks 1 2 Sample.uploadUrl 4 8 4 (Sample.file 10)) =
      (ReadAtCall 4 (U64.to_int64 8) :: HTTPDo req :: rest)%list /\
    Body req = Sample.zeros 2 /\
    Header_Get "Content-Length" req =
      Some (format_d (Z.of_nat (List.length (Sample.zeros 2)))).
Proof.
  split.
  - apply (proj1 (@short_read_handling Sample.library three_chunks 0 0
                    Sample.uploadUrl 4 10 4 (Sample.file 10) eq_refl)).
    sample_reads.
  - apply (proj2 (@short_read_handling Sample.library three_chunks 0 2
                    Sample.uploadUrl 4 8 4 (Sample.file 10) eq_refl)
             (Sample.zeros 2)).
    + sample_sends.
    + vm_compute. reflexivity.
Defined.

Lemma validation_precedes_requests_witness :
  exists e,
    In e validation_errors /\
    UploadLargeFile three_chunks 3 EmptyString (Sample.file 10) (Sample.opts 4) =
      ([], Some (Err e)).
Proof.
  apply (@validation_precedes_requests Sample.library three_chunks 3 EmptyString
           (Sample.file 10) (Sample.opts 4)).
  left. reflexivity.
Defined.

(** The session that the sample service creates and the request for it. *)
Definition sample_session : UploadSession :=
  {| ODataContext := EmptyString;
     ExpirationDateTime := EmptyString;
     NextExpectedRanges := [];
     UploadUrl := Sample.uploadUrl |}.

Definition sample_post : Request :=
  {| Method := "POST";
     URL := "https://graph.example/v1.0/me/drive/items/root:/report.bin:/createUploadSession";
     Header := [("Content-Type", "application/json")];
     Body := [] |}.

Lemma cancellation_on_every_exit_witness :
  exists chunks,
    fst (UploadLargeFile three_chunks 3 "root" (Sample.file 10) (Sample.opts 4)) =
      (ClientDo sample_post :: chunks ++ [HTTPDo (delete_request sample_session)])%list.
Proof.
  assert (Hrun : exists tr,
            UploadLargeFile three_chunks 3 "root" (Sample.file 10)
              (Sample.opts 4) = (tr, Some (Ok Sample.item)) /\
            hd_error tr = Some (ClientDo sample_post)).
  { eexists. split; [vm_compute; reflexivity | reflexivity]. }
  destruct Hrun as (tr & Hrun & Hhead).
  destruct (proj1 (@cancellation_on_every_exit Sample.library three_chunks 3
                     "root" (Sample.file 10) (Sample.opts 4) tr
                     (Ok Sample.item) sample_post sample_session
                     Hrun Hhead eq_refl)) as [chunks Hchunks].
  exists chunks. rewrite Hrun. exact Hchunks.
Defined.

(** The server names the next range [5], without a ['-']. *)
Lemma second_fragment_access_witness :
  uploadChunk (Sample.service (Sample.script [Sample.accepted ["5"]])) 1 0
    Sample.uploadUrl 10 0 10 (Sample.file 40) =
  (sent_events Sample.uploadUrl 0 10 (Sample.file 40) (Sample.zeros 10),
   Some (Panic (IndexOutOfRange 1 1))).
Proof.
  apply (proj2 (proj2 (@second_fragment_access Sample.library
                         (Sample.service (Sample.script [Sample.accepted ["5"]]))))
           0%nat 0%nat Sample.uploadUrl 10 0 10 (Sample.file 40) (Sample.zeros 10)
           (Sample.response 202 "202 Accepted" (Sample.session_json ["5"]))
           (Sample.session_json ["5"]) (Sample.session ["5"]) "5" []).
  - sample_receives.
  - reflexivity.
  - reflexivity.
  - reflexivity.
  - reflexivity.
Defined.

(** *** Runs of the further properties *)

Lemma completion_returns_item_witness :
  uploadChunk (Sample.service (Sample.script [Sample.created])) 1 0
    Sample.uploadUrl 10 0 10 (Sample.file 10) =
  (sent_events Sample.uploadUrl 0 10 (Sample.file 10) (Sample.zeros 10),
   Some (Ok Sample.item)).
Proof.
  apply (@completion_returns_item Sample.library _ 0 0 Sample.uploadUrl 10 0 10
           (Sample.file 10) (Sample.zeros 10)
           (Sample.response 201 "201 Created" Sample.item_json)
           Sample.item_json).
  - sample_receives.
  - right. reflexivity.
Defined.

(** The connection is reset under the first chunk. *)
Definition connection_reset : error := foreignError "net/http" "connection reset by peer".

Lemma failed_round_trip_is_final_witness :
  uploadChunk (Sample.service (Sample.script [inl connection_reset])) 3 0
    Sample.uploadUrl 10 0 10 (Sample.file 40) =
  (sent_events Sample.uploadUrl 0 10 (Sample.file 40) (Sample.zeros 10),
   Some (Err connection_reset)).
Proof.
  apply (proj1 (@failed_round_trip_is_final Sample.library
                  (Sample.service (Sample.script [inl connection_reset]))
                  2 0 Sample.uploadUrl 10 0 10 (Sample.file 40)
                  (Sample.zeros 10) ltac:(sample_sends))
           connection_reset).
  reflexivity.
Defined.

Lemma uploadChunk_sends_chunk_requests_witness :
  chunk_request Sample.uploadUrl (Sample.file 10)
    (put_request Sample.uploadUrl (Sample.zeros 2) 8 10).
Proof.
  apply (@uploadChunk_sends_chunk_requests Sample.library three_chunks 3 0
           Sample.uploadUrl 4 0 4 (Sample.file 10)).
  vm_compute. do 5 right. left. reflexivity.
Defined.

(** A library that knows the session with the next range [4-0]. *)
Definition zero_range_library : Library :=
  {| PathEscape := fun text => text;
     NewRequest_err := fun _ _ => None;
     Unmarshal_DriveItem := Sample.decode [(Sample.item_json, Sample.item)];
     Unmarshal_UploadSession :=
       Sample.decode [(Sample.session_json ["4-0"], Sample.session ["4-0"])];
     Unmarshal_ErrorResponse := Sample.decode [("null", None)];
     processHTTPError := fun e => e;
     maxAlloc := 2 ^ 48 |}.

Lemma zero_length_range_returns_nothing_witness :
  @uploadChunk zero_range_library
    (Sample.service (Sample.script [Sample.accepted ["4-0"]])) 2 0
    Sample.uploadUrl 4 0 4 (Sample.file 10) =
  ((sent_events Sample.uploadUrl 0 4 (Sample.file 10) (Sample.zeros 4)
      ++ [ReadAtCall 0 4])%list,
   Some NilNil).
Proof.
  apply (@zero_length_range_returns_nothing zero_range_library
           (Sample.service (Sample.script [Sample.accepted ["4-0"]]))
           0 0 Sample.uploadUrl 4 0 4 (Sample.file 10) (Sample.zeros 10)
           (Sample.zeros 4)
           (Sample.response 202 "202 Accepted" (Sample.session_json ["4-0"]))
           (Sample.session_json ["4-0"]) (Sample.session ["4-0"]) "4-0" [] 4).
  - sample_receives.
  - reflexivity.
  - reflexivity.
  - reflexivity.
  - exists "4", "0", []. vm_compute. auto.
  - reflexivity.
  - vm_compute. reflexivity.
  - vm_compute. reflexivity.
Defined.

Lemma nothing_before_session_witness :
  exists post session,
    hd_error (fst (UploadLargeFile three_chunks 3 "root" (Sample.file 10)
                     (Sample.opts 4))) = Some (ClientDo post) /\
    client_Do three_chunks post = inr session.
Proof.
  apply (@nothing_before_session Sample.library three_chunks 3 "root"
           (Sample.file 10) (Sample.opts 4) (ReadAtCall 4 0)).
  - vm_compute. right. left. reflexivity.
  - intros post. discriminate.
Defined.

(** A service that refuses to create a session. *)
Definition quota_exceeded : error :=
  apiError {| Code := "quotaLimitReached"; Message := "Insufficient space";
              LocalizedMessage := EmptyString; InnerError_ := None |}.

Definition no_session : DriveItemsService :=
  {| BaseURL_Parse := fun path => inr ("https://graph.example/v1.0/" ++ path);
     client_Do := fun _ => inl quota_exceeded;
     Do := fun _ _ => Sample.no_content |}.

Lemma failed_session_ends_upload_witness :
  UploadLargeFile no_session 3 "root" (Sample.file 10) (Sample.opts 4) =
    ([ClientDo sample_post], Some (Err quota_exceeded)).
Proof.
  apply (@failed_session_ends_upload Sample.library no_session 3 "root"
           (Sample.file 10) (Sample.opts 4) sample_post quota_exceeded).
  - vm_compute. reflexivity.
  - reflexivity.
Defined.

Lemma three_chunks_next (k : nat) :
  (S k < 3)%nat ->
  @answers_next Sample.library three_chunks Sample.uploadUrl (Sample.file 10)
    (Sample.zeros 10) 4 k.
Proof.
  intros Hk.
  assert (Hcases : k = 0%nat \/ k = 1%nat) by lia.
  destruct Hcases as [-> | ->].
  - exists (Sample.response 202 "202 Accepted" (Sample.session_json ["4-"])),
      (Sample.session_json ["4-"]), (Sample.session ["4-"]), [].
    repeat split; reflexivity.
  - exists (Sample.response 202 "202 Accepted" (Sample.session_json ["8-"])),
      (Sample.session_json ["8-"]), (Sample.session ["8-"]), [].
    repeat split; reflexivity.
Qed.

Lemma three_chunks_item (k : nat) :
  S k = 3%nat ->
  @answers_item Sample.library three_chunks Sample.uploadUrl (Sample.file 10)
    (Sample.zeros 10) 4 Sample.item k.
Proof.
  intros Hk. assert (k = 2%nat) as -> by lia.
  exists (Sample.response 201 "201 Created" Sample.item_json), Sample.item_json.
  repeat split; try reflexivity. right. reflexivity.
Qed.

Lemma upload_covers_file_witness :
  uploadChunk three_chunks 3 0 Sample.uploadUrl 4 0 4 (Sample.file 10) =
    (pieces_log Sample.uploadUrl (Sample.file 10) (Sample.zeros 10) 4 0 3,
     Some (Ok Sample.item)) /\
  List.concat (map (piece 4 (Sample.zeros 10)) (seq 0 3)) = Sample.zeros 10.
Proof.
  destruct (@upload_covers_file Sample.library three_chunks Sample.uploadUrl
              (Sample.file 10) (Sample.zeros 10) 4 3 Sample.item
              eq_refl ltac:(vm_compute; reflexivity) ltac:(lia)
              ltac:(vm_compute; lia) eq_refl three_chunks_next
              three_chunks_item ltac:(lia))
    as (Hrun & Hall & _).
  split; [exact Hrun | exact Hall].
Defined.

Lemma printed_offsets_are_read_back_witness :
  ParseUint (format_d 1048576) = inr 1048576 /\
  range_resolves (format_d 1048576 ++ "-") 4194304 1048576 4194304.
Proof.
  apply (@printed_offsets_are_read_back 1048576 4194304).
  vm_compute. split; [discriminate | reflexivity].
Defined.

Lemma resolved_ranges_are_decimal_witness :
  exists start end_ frags,
    Split "1048576-2097151" dash = start :: end_ :: frags /\
    decimal start /\
    U64.in_range 1048576 /\
    ((end_ = EmptyString /\ 2097151 = 1048576) \/
     (decimal end_ /\ U64.in_range 2097151)).
Proof.
  apply (@resolved_ranges_are_decimal "1048576-2097151" 1048576 1048576 2097151).
  exists "1048576", "2097151", []. vm_compute. auto.
Defined.

Lemma further_fragments_are_ignored_witness :
  range_resolves "4-7-11" 4 4 7 <-> range_resolves "4-7" 4 4 7.
Proof.
  apply (@further_fragments_are_ignored "4" "7" "11" 4 4 7); reflexivity.
Defined.

(** *** Sample collaborators for the other operations *)

Definition api_base : string := "https://graph.example/v1.0/".

Definition notes_item : DriveItem :=
  {| Name := "notes.txt"; Id := "01NOTES";
     DownloadURL := "https://download.example/01NOTES";
     Description := EmptyString; WebURL := EmptyString;
     File := Some {| MIMEType := "text/plain" |}; Folder := None |}.

(** The same item as a listing gives it, without a download URL. *)
Definition listed_item : DriveItem :=
  {| Name := "notes.txt"; Id := "01NOTES"; DownloadURL := EmptyString;
     Description := EmptyString; WebURL := EmptyString;
     File := Some {| MIMEType := "text/plain" |}; Folder := None |}.

Definition sample_client : Items.Client :=
  {| Items.client_NewRequest := fun method path _ =>
       inr {| Method := method; URL := api_base ++ path; Header := [];
              Body := [] |};
     Items.NewFileUploadRequest := fun path type body =>
       inr {| Method := "PUT"; URL := api_base ++ path;
              Header := [("Content-Type", type)]; Body := body |};
     Items.Do_Items := fun _ => inr None;
     Items.Do_DriveItem := fun _ => inr (Some notes_item);
     Items.Do_Move := fun _ => inr None;
     Items.Do_Rename := fun _ => inr None;
     Items.Do_Copy := fun _ =>
       inr (Some {| Items.Location := "https://graph.example/monitor/1" |});
     Items.Do_Drive := fun _ => inr (Some {| Items.Drive_Id := "b!7" |}) |}.

(** A file of 4 bytes of which one [Read] gives the first 2. *)
Definition short_Read (len : Z) : list byte := firstn (Z.to_nat len) [x68; x69].

Lemma short_Read_le (len : Z) :
  Z.of_nat (List.length (short_Read len)) <= Z.max 0 len.
Proof.
  unfold short_Read.
  pose proof (firstn_le_length (Z.to_nat len) [x68; x69]). lia.
Qed.

Definition notes_file : Items.OSFile :=
  {| Items.Stat :=
       inr {| Items.IsDir := false; Items.FileInfo_Size := 4;
              Items.FileInfo_Name := "notes.txt" |};
     Items.Read := short_Read;
     Items.Read_le := short_Read_le |}.

Definition sample_system : Items.System :=
  {| Items.os_Open := fun _ => inr notes_file;
     Items.filetype_Match := fun _ => "text/plain" |}.

(** The raw client answers the download with 200 and the text. *)
Definition downloads : DriveItemsService :=
  Sample.service (Sample.script [inr (Sample.response 200 "200 OK" "hi")]).

(** The raw client answers with 500 and the JSON value [null]. *)
Definition null_response : Response :=
  Sample.response 500 "500 Internal Server Error" "null".

Definition fails_with_null : DriveItemsService :=
  Sample.service (fun _ => inr null_response).

(** *** Runs of the other operations *)

Lemma copy_asks_for_default_drive_witness :
  Items.Copy sample_client EmptyString "01NOTES" EmptyString "01FOLDER"
    "copy.txt" =
  let there :=
    Items.Copy sample_client EmptyString "01NOTES" "b!7" "01FOLDER" "copy.txt" in
  (ClientDo {| Method := "GET"; URL := api_base ++ "me/drive"; Header := [];
               Body := [] |} :: fst there, snd there).
Proof.
  apply (@copy_asks_for_default_drive Sample.library sample_client EmptyString
           "01NOTES" "01FOLDER" "copy.txt"
           {| Method := "GET"; URL := api_base ++ "me/drive"; Header := [];
              Body := [] |}).
  - discriminate.
  - discriminate.
  - discriminate.
  - reflexivity.
  - discriminate.
Defined.

Lemma small_upload_body_witness :
  exists file info url,
    Items.os_Open sample_system "notes.txt" = inr file /\
    Items.Stat file = inr info /\
    Items.IsDir info = false /\
    0 <= Items.FileInfo_Size info <= Transfers.limit /\
    let size := Items.FileInfo_Size info in
    let buffer :=
      (Items.Read file size
         ++ repeat x00 (Z.to_nat size - List.length (Items.Read file size)))%list in
    Z.of_nat (List.length buffer) = size /\
    Transfers.UploadNewFile sample_client sample_system EmptyString "01FOLDER"
      "notes.txt" =
      Items.send (Items.Do_DriveItem sample_client)
        (Items.NewFileUploadRequest sample_client url
           (Items.filetype_Match sample_system buffer) buffer).
Proof.
  apply (@small_upload_body Sample.library sample_client sample_system
           EmptyString "01FOLDER" "notes.txt").
  vm_compute. discriminate.
Defined.

Lemma reader_upload_is_cut_witness :
  let body := firstn (Z.to_nat Transfers.limit) [x68; x69] in
  exists url,
    Transfers.UploadFileFromReader sample_client "01FOLDER" "notes.txt"
      "text/plain" (Some [x68; x69])
      {| Transfers.Reader_DriveID := EmptyString;
         Transfers.Reader_ConflictBehavior := "replace" |} =
      Items.send (Items.Do_DriveItem sample_client)
        (Items.NewFileUploadRequest sample_client url "text/plain" body) /\
    Z.of_nat (List.length body) <= 4194304 /\
    (Z.of_nat (List.length [x68; x69]) <= 4194304 -> body = [x68; x69]) /\
    (4194304 < Z.of_nat (List.length [x68; x69]) ->
       Z.of_nat (List.length body) = 4194304).
Proof.
  apply (@reader_upload_is_cut Sample.library sample_client "01FOLDER"
           "notes.txt" "text/plain" [x68; x69]).
  discriminate.
Defined.

Lemma download_is_body_of_200_witness :
  exists url resp,
    In (HTTPDo (get_request url))
       (fst (Transfers.DownloadItem downloads sample_client (Some notes_item))) /\
    Do downloads 0 (get_request url) = inr resp /\
    StatusCode resp = 200 /\
    ResponseBody resp = inr "hi".
Proof.
  apply (@download_is_body_of_200 Sample.library downloads sample_client
           (Some notes_item) "hi").
  reflexivity.
Defined.

Lemma download_looks_item_up_witness :
  Transfers.DownloadItem downloads sample_client (Some listed_item) =
    let there := Transfers.DownloadItem downloads sample_client (Some notes_item) in
    (([ClientDo {| Method := "GET"; URL := api_base ++ "me/drive/items/01NOTES";
                   Header := []; Body := [] |}] ++ fst there)%list,
     snd there).
Proof.
  apply (@download_looks_item_up Sample.library downloads sample_client
           listed_item eq_refl).
  discriminate.
Defined.

Lemma null_body_in_download_and_upload_witness :
  snd (Transfers.DownloadItem fails_with_null sample_client (Some notes_item)) =
    Err (errorString "500 Internal Server Error: null") /\
  snd (uploadChunk fails_with_null 1 0 Sample.uploadUrl 10 0 10 (Sample.file 40)) =
    Some (Panic NilDereference).
Proof.
  apply (@null_body_in_download_and_upload Sample.library fails_with_null
           sample_client notes_item null_response "null" 0 0 Sample.uploadUrl
           10 0 10 (Sample.file 40) (Sample.zeros 10)).
  - discriminate.
  - reflexivity.
  - reflexivity.
  - sample_receives.
  - discriminate.
  - discriminate.
  - discriminate.
  - reflexivity.
Defined.

Lemma replacement_needs_same_type_witness :
  exists file info target targetFile,
    Items.os_Open sample_system "notes.txt" = inr file /\
    Items.Stat file = inr info /\
    Items.IsDir info = false /\
    Items.FileInfo_Size info <= Transfers.limit /\
    Items.Get sample_client "01NOTES" =
      ([ClientDo {| Method := "GET"; URL := api_base ++ "me/drive/items/01NOTES";
                    Header := []; Body := [] |}], Ok target) /\
    File target = Some targetFile /\
    MIMEType targetFile =
      Items.filetype_Match sample_system
        (Transfers.read_whole file (Items.FileInfo_Size info)) /\
    @nil event = [].
Proof.
  apply (@replacement_needs_same_type Sample.library sample_client sample_system
           Sample.quote EmptyString "notes.txt" "01NOTES"
           (ClientDo {| Method := "GET";
                        URL := api_base ++ "me/drive/items/01NOTES";
                        Header := []; Body := [] |})
           (ClientDo {| Method := "PUT";
                        URL := api_base ++ "me/drive/items/01NOTES/content";
                        Header := [("Content-Type", "text/plain")];
                        Body := [x68; x69; x00; x00] |})
           []).
  vm_compute. reflexivity.
Defined.

Lemma requests_go_to_session_witness :
  URL (delete_request sample_session) = UploadUrl sample_session /\
  (chunk_request (UploadUrl sample_session) (Sample.file 10)
     (delete_request sample_session) \/
   delete_request sample_session = delete_request sample_session).
Proof.
  apply (@requests_go_to_session Sample.library three_chunks 3 "root"
           (Sample.file 10) (Sample.opts 4) sample_post sample_session
           (delete_request sample_session)).
  - vm_compute. reflexivity.
  - reflexivity.
  - vm_compute. do 7 right. left. reflexivity.
Defined.

(** No chunk size is asked for: the first read is for 4 MiB. *)
Lemma first_read_is_chunk_size_witness :
  nth_error
    (fst (UploadLargeFile (Sample.service (Sample.script [Sample.created])) 1
            "root" (Sample.file 10) (Sample.opts 0)))
    1 = Some (ReadAtCall 4194304 0).
Proof.
  apply (@first_read_is_chunk_size Sample.library
           (Sample.service (Sample.script [Sample.created])) 0 "root"
           (Sample.file 10) (Sample.opts 0) sample_post sample_session).
  - vm_compute. reflexivity.
  - reflexivity.
  - vm_compute. split; discriminate.
Defined.
